(** * The signup component of the join application

    A shallow embedding of [src/app/landingpage/signup/signup.component.ts]
    and the properties its specification states about it.

    Conventions of the embedding.
    - A JavaScript string is a sequence of UTF-16 code units.  The model
      uses [string], whose characters are the code units 0 to 255 (the
      Latin-1 range); [length], [===], [trim], [toLowerCase] and the
      regular-expression test are the ECMAScript ones on that range.
    - The component instance is a record, one field per class member, and a
      method is a computation over a [World]: the component, the state of
      the injected services, and two observation logs (the calls made to
      the services, and the per-field checks the validator performed).
    - The injected services (their code is not part of the component) are
      oracles: each call may resolve or throw, and may change the state
      the services expose.  A method runs to completion before the next UI
      event is handled: nothing else writes the component while
      [onRegister] is suspended on an [await]. *)

From Stdlib Require Import String Ascii List Bool Arith Lia.
Import ListNotations.
Local Open Scope string_scope.
Local Open Scope list_scope.

(* ------------------------------------------------------------------ *)
(** ** String primitives *)

Module Js.

(** ECMAScript [WhiteSpace] and [LineTerminator] code units below 256:
    TAB, LF, VT, FF, CR, SP and NBSP. *)
Definition isWhiteSpace (c : ascii) : bool :=
  let n := nat_of_ascii c in
  ((n =? 9) || (n =? 10) || (n =? 11) || (n =? 12) || (n =? 13)
   || (n =? 32) || (n =? 160))%nat.

Fixpoint trimStart (s : string) : string :=
  match s with
  | EmptyString => EmptyString
  | String c s' => if isWhiteSpace c then trimStart s' else s
  end.

Fixpoint trimEnd (s : string) : string :=
  match s with
  | EmptyString => EmptyString
  | String c s' =>
      match trimEnd s' with
      | EmptyString => if isWhiteSpace c then EmptyString
                       else String c EmptyString
      | t => String c t
      end
  end.

(** [String.prototype.trim] *)
Definition trim (s : string) : string := trimEnd (trimStart s).

(** Simple case mapping of one code unit: A-Z, and the Latin-1 capitals
    U+00C0..U+00DE except the multiplication sign U+00D7. *)
Definition lowerChar (c : ascii) : ascii :=
  let n := nat_of_ascii c in
  if (((65 <=? n) && (n <=? 90))
      || ((192 <=? n) && (n <=? 222) && negb (n =? 215)))%nat
  then ascii_of_nat (n + 32) else c.

(** [String.prototype.toLowerCase] *)
Fixpoint toLowerCase (s : string) : string :=
  match s with
  | EmptyString => EmptyString
  | String c s' => String (lowerChar c) (toLowerCase s')
  end.

(** [ToBoolean] of a string: only the empty string is falsy. *)
Definition truthy (s : string) : bool :=
  match s with EmptyString => false | _ => true end.

(** [Array.prototype.includes] on an array of strings. *)
Definition includes (l : list string) (x : string) : bool :=
  existsb (fun y => String.eqb y x) l.

End Js.

(* ------------------------------------------------------------------ *)
(** ** Regular expressions

    The fragment of the ECMAScript pattern language the component uses:
    character classes made of ranges, concatenation, [+] and [{n,}].  A
    pattern anchored by [^] and [$] (no flags) tests true exactly when the
    whole input belongs to the language of the pattern; [test] decides
    that by derivatives. *)

Module Regex.

Inductive re : Type :=
| Void
| Eps
| Class (ranges : list (ascii * ascii))
| Cat (r1 r2 : re)
| Alt (r1 r2 : re)
| Star (r : re).

(** [r+] *)
Definition plus (r : re) : re := Cat r (Star r).

(** [r{n,}] *)
Fixpoint atLeast (n : nat) (r : re) : re :=
  match n with
  | O => Star r
  | S n' => Cat r (atLeast n' r)
  end.

Definition inRange (c : ascii) (p : ascii * ascii) : bool :=
  ((nat_of_ascii (fst p) <=? nat_of_ascii c)
   && (nat_of_ascii c <=? nat_of_ascii (snd p)))%nat.

Definition inClass (ranges : list (ascii * ascii)) (c : ascii) : bool :=
  existsb (inRange c) ranges.

Fixpoint nullable (r : re) : bool :=
  match r with
  | Void => false
  | Eps => true
  | Class _ => false
  | Cat r1 r2 => nullable r1 && nullable r2
  | Alt r1 r2 => nullable r1 || nullable r2
  | Star _ => true
  end.

Fixpoint deriv (c : ascii) (r : re) : re :=
  match r with
  | Void => Void
  | Eps => Void
  | Class rs => if inClass rs c then Eps else Void
  | Cat r1 r2 =>
      if nullable r1
      then Alt (Cat (deriv c r1) r2) (deriv c r2)
      else Cat (deriv c r1) r2
  | Alt r1 r2 => Alt (deriv c r1) (deriv c r2)
  | Star r1 => Cat (deriv c r1) (Star r1)
  end.

(** [/^r$/.test(s)] *)
Fixpoint test (r : re) (s : string) : bool :=
  match s with
  | EmptyString => nullable r
  | String c s' => test (deriv c r) s'
  end.

(** The language of a pattern, as a relation. *)
Inductive Matches : re -> string -> Prop :=
| MEps : Matches Eps ""
| MClass rs c : inClass rs c = true -> Matches (Class rs) (String c "")
| MCat r1 r2 s1 s2 :
    Matches r1 s1 -> Matches r2 s2 -> Matches (Cat r1 r2) (s1 ++ s2)%string
| MAltL r1 r2 s : Matches r1 s -> Matches (Alt r1 r2) s
| MAltR r1 r2 s : Matches r2 s -> Matches (Alt r1 r2) s
| MStarNil r : Matches (Star r) ""
| MStarCons r c s1 s2 :
    Matches r (String c s1) -> Matches (Star r) s2 ->
    Matches (Star r) (String c s1 ++ s2)%string.

End Regex.

(* ------------------------------------------------------------------ *)
(** ** Data model *)

(** [interfaces/userdata]: the four strings of [newUserData]. *)
Record Userdata : Type := mkUserdata {
  ud_name : string;
  ud_email : string;
  ud_password : string;
  ud_confirmPassword : string
}.

(** The record handed to [contactService.addContact], and the elements
    of [contactService.contactList]. *)
Record Contact : Type := mkContact {
  c_name : string;
  c_email : string;
  c_phone : string
}.

(** A thrown value, as far as the component looks at it: [err.message]. *)
Record JsError : Type := mkError { message : string }.

(** The members of [SignupComponent], in declaration order. *)
Record SignupComponent : Type := mkSignup {
  invalidFields : list string;
  privacyAccepted : bool;
  showPrivacy : bool;
  newUserData : Userdata;
  name : string;
  email : string;
  password : string;
  passwordConfirm : string;
  error : string;
  privacyError : bool;
  showPrivacyError : bool;
  passwordVisible : bool;
  confirmPasswordVisible : bool;
  passwordEntered : bool;
  confirmPasswordEntered : bool
}.

(** The instance as the field initialisers build it. *)
Definition initialComponent : SignupComponent :=
  {| invalidFields := [];
     privacyAccepted := false;
     showPrivacy := false;
     newUserData := mkUserdata "" "" "" "";
     name := "";
     email := "";
     password := "";
     passwordConfirm := "";
     error := "";
     privacyError := false;
     showPrivacyError := false;
     passwordVisible := false;
     confirmPasswordVisible := false;
     passwordEntered := false;
     confirmPasswordEntered := false |}.

(** Assignments [this.f = v]. *)
Definition set_invalidFields (v : list string) (c : SignupComponent) :=
  mkSignup v (privacyAccepted c) (showPrivacy c) (newUserData c) (name c)
    (email c) (password c) (passwordConfirm c) (error c) (privacyError c)
    (showPrivacyError c) (passwordVisible c) (confirmPasswordVisible c)
    (passwordEntered c) (confirmPasswordEntered c).

Definition set_privacyAccepted (v : bool) (c : SignupComponent) :=
  mkSignup (invalidFields c) v (showPrivacy c) (newUserData c) (name c)
    (email c) (password c) (passwordConfirm c) (error c) (privacyError c)
    (showPrivacyError c) (passwordVisible c) (confirmPasswordVisible c)
    (passwordEntered c) (confirmPasswordEntered c).

Definition set_showPrivacy (v : bool) (c : SignupComponent) :=
  mkSignup (invalidFields c) (privacyAccepted c) v (newUserData c) (name c)
    (email c) (password c) (passwordConfirm c) (error c) (privacyError c)
    (showPrivacyError c) (passwordVisible c) (confirmPasswordVisible c)
    (passwordEntered c) (confirmPasswordEntered c).

Definition set_name (v : string) (c : SignupComponent) :=
  mkSignup (invalidFields c) (privacyAccepted c) (showPrivacy c)
    (newUserData c) v (email c) (password c) (passwordConfirm c) (error c)
    (privacyError c) (showPrivacyError c) (passwordVisible c)
    (confirmPasswordVisible c) (passwordEntered c) (confirmPasswordEntered c).

Definition set_email (v : string) (c : SignupComponent) :=
  mkSignup (invalidFields c) (privacyAccepted c) (showPrivacy c)
    (newUserData c) (name c) v (password c) (passwordConfirm c) (error c)
    (privacyError c) (showPrivacyError c) (passwordVisible c)
    (confirmPasswordVisible c) (passwordEntered c) (confirmPasswordEntered c).

Definition set_password (v : string) (c : SignupComponent) :=
  mkSignup (invalidFields c) (privacyAccepted c) (showPrivacy c)
    (newUserData c) (name c) (email c) v (passwordConfirm c) (error c)
    (privacyError c) (showPrivacyError c) (passwordVisible c)
    (confirmPasswordVisible c) (passwordEntered c) (confirmPasswordEntered c).

Definition set_passwordConfirm (v : string) (c : SignupComponent) :=
  mkSignup (invalidFields c) (privacyAccepted c) (showPrivacy c)
    (newUserData c) (name c) (email c) (password c) v (error c)
    (privacyError c) (showPrivacyError c) (passwordVisible c)
    (confirmPasswordVisible c) (passwordEntered c) (confirmPasswordEntered c).

Definition set_error (v : string) (c : SignupComponent) :=
  mkSignup (invalidFields c) (privacyAccepted c) (showPrivacy c)
    (newUserData c) (name c) (email c) (password c) (passwordConfirm c) v
    (privacyError c) (showPrivacyError c) (passwordVisible c)
    (confirmPasswordVisible c) (passwordEntered c) (confirmPasswordEntered c).

Definition set_showPrivacyError (v : bool) (c : SignupComponent) :=
  mkSignup (invalidFields c) (privacyAccepted c) (showPrivacy c)
    (newUserData c) (name c) (email c) (password c) (passwordConfirm c)
    (error c) (privacyError c) v (passwordVisible c)
    (confirmPasswordVisible c) (passwordEntered c) (confirmPasswordEntered c).

Definition set_passwordVisible (v : bool) (c : SignupComponent) :=
  mkSignup (invalidFields c) (privacyAccepted c) (showPrivacy c)
    (newUserData c) (name c) (email c) (password c) (passwordConfirm c)
    (error c) (privacyError c) (showPrivacyError c) v
    (confirmPasswordVisible c) (passwordEntered c) (confirmPasswordEntered c).

Definition set_confirmPasswordVisible (v : bool) (c : SignupComponent) :=
  mkSignup (invalidFields c) (privacyAccepted c) (showPrivacy c)
    (newUserData c) (name c) (email c) (password c) (passwordConfirm c)
    (error c) (privacyError c) (showPrivacyError c) (passwordVisible c) v
    (passwordEntered c) (confirmPasswordEntered c).

Definition set_passwordEntered (v : bool) (c : SignupComponent) :=
  mkSignup (invalidFields c) (privacyAccepted c) (showPrivacy c)
    (newUserData c) (name c) (email c) (password c) (passwordConfirm c)
    (error c) (privacyError c) (showPrivacyError c) (passwordVisible c)
    (confirmPasswordVisible c) v (confirmPasswordEntered c).

Definition set_confirmPasswordEntered (v : bool) (c : SignupComponent) :=
  mkSignup (invalidFields c) (privacyAccepted c) (showPrivacy c)
    (newUserData c) (name c) (email c) (password c) (passwordConfirm c)
    (error c) (privacyError c) (showPrivacyError c) (passwordVisible c)
    (confirmPasswordVisible c) (passwordEntered c) v.

(** What the injected services expose to the component: the contact
    service's in-memory [contactList] and the auth service's
    [UserLoggedIn] property. *)
Record Ext : Type := mkExt {
  contactList : list Contact;
  UserLoggedIn : string
}.

(** Calls that leave the component. *)
Inductive Call : Type :=
| CallRegister (email password name : string)
| CallAddContact (c : Contact)
| CallGetUsername (email : string)
| CallNavigate (commands : list string)
| CallShow (msg : string)
| CallSetItem (key value : string).

(** One entry of the call log: the call, and the error when it threw. *)
Record Event : Type := mkEvent {
  ev_call : Call;
  ev_threw : option JsError
}.

Record World : Type := mkWorld {
  self : SignupComponent;
  ext : Ext;
  calls : list Event;
  checks : list (string * bool)
}.

Definition with_self (f : SignupComponent -> SignupComponent) (w : World) :=
  mkWorld (f (self w)) (ext w) (calls w) (checks w).

Definition with_ext (f : Ext -> Ext) (w : World) :=
  mkWorld (self w) (f (ext w)) (calls w) (checks w).

(* ------------------------------------------------------------------ *)
(** ** Method bodies as computations

    A computation either completes normally with a value, or abruptly
    with a thrown error; [None] is reserved for a recursion that ran out
    of fuel. *)

Inductive Completion (A : Type) : Type :=
| Normal (a : A)
| Throw (e : JsError).
Arguments Normal {A} a.
Arguments Throw {A} e.

Definition M (A : Type) : Type := World -> option (Completion A * World).

Definition ret {A} (a : A) : M A := fun w => Some (Normal a, w).

Definition bind {A B} (m : M A) (k : A -> M B) : M B :=
  fun w =>
    match m w with
    | None => None
    | Some (Normal a, w') => k a w'
    | Some (Throw e, w') => Some (Throw e, w')
    end.

Notation "x <- m ;; k" := (bind m (fun x => k))
  (at level 61, m at next level, right associativity).
Notation "m ;; k" := (bind m (fun _ => k))
  (at level 61, right associativity).

(** Read a member: [this.f]. *)
Definition this {A} (f : SignupComponent -> A) : M A :=
  fun w => Some (Normal (f (self w)), w).

(** Write a member: [this.f = v]. *)
Definition assign (f : SignupComponent -> SignupComponent) : M unit :=
  fun w => Some (Normal tt, with_self f w).

(** [try { body } catch (err) { handler(err) }] *)
Definition try_catch {A} (body : M A) (handler : JsError -> M A) : M A :=
  fun w =>
    match body w with
    | None => None
    | Some (Normal a, w') => Some (Normal a, w')
    | Some (Throw e, w') => handler e w'
    end.

(** No fuel left. *)
Definition out_of_fuel {A} : M A := fun _ => None.

Definition threw {A} (r : Completion A) : option JsError :=
  match r with Normal _ => None | Throw e => Some e end.

(** A call into a service: the oracle decides the completion and the new
    exposed state, and the call is logged with its outcome. *)
Definition extcall {A} (c : Call) (oracle : Ext -> Completion A * Ext)
  : M A :=
  fun w =>
    let (r, e') := oracle (ext w) in
    Some (r, mkWorld (self w) e' (calls w ++ [mkEvent c (threw r)])
               (checks w)).

(** The behaviour of the injected services and of [localStorage]. *)
Record Services : Type := mkServices {
  sv_register : string -> string -> string -> Ext -> Completion unit * Ext;
  sv_addContact : Contact -> Ext -> Completion unit * Ext;
  sv_getUsername : string -> Ext -> Completion string * Ext;
  sv_navigate : list string -> Ext -> Completion unit * Ext;
  sv_show : string -> Ext -> Completion unit * Ext;
  sv_setItem : string -> string -> Ext -> Completion unit * Ext
}.

(** Read the whole world (a member together with a service property). *)
Definition reads {A} (f : World -> A) : M A :=
  fun w => Some (Normal (f w), w).

(** Observation only: record that a per-field check reported [invalid]
    for [fieldName]. *)
Definition observe_check (fieldName : string) (invalid : bool) : M unit :=
  fun w =>
    Some (Normal tt,
          mkWorld (self w) (ext w) (calls w)
            (checks w ++ [(fieldName, invalid)])).

(** The argument type ['password' | 'confirmPassword']. *)
Inductive PasswordField : Type := FieldPassword | FieldConfirmPassword.

(** [/^[a-zA-Z0-9._%+-]+@[a-zA-Z0-9.-]+\.[a-zA-Z]{2,}$/], the literal of
    both [isFormValid] and [validateMail]. *)
Definition emailRegex : Regex.re :=
  let local := [("a","z"); ("A","Z"); ("0","9"); (".","."); ("_","_");
                ("%","%"); ("+","+"); ("-","-")]%char in
  let domain := [("a","z"); ("A","Z"); ("0","9"); (".","."); ("-","-")]%char in
  let alpha := [("a","z"); ("A","Z")]%char in
  Regex.Cat (Regex.plus (Regex.Class local))
    (Regex.Cat (Regex.Class [("@","@")]%char)
       (Regex.Cat (Regex.plus (Regex.Class domain))
          (Regex.Cat (Regex.Class [(".",".")]%char)
             (Regex.atLeast 2 (Regex.Class alpha))))).

(** The getter [isFormValid]. *)
Definition isFormValid (c : SignupComponent) : bool :=
  let isEmailValid := Regex.test emailRegex (email c) in
  (2 <=? String.length (Js.trim (name c)))%nat
  && isEmailValid
  && (6 <=? String.length (password c))%nat
  && (6 <=? String.length (passwordConfirm c))%nat.

(** [contactList.some(c => c.email === this.email)] *)
Definition checkIfMailinUseInContact (w : World) : bool :=
  existsb (fun c => String.eqb (c_email c) (email (self w)))
    (contactList (ext w)).

Definition onPasswordInput (field : PasswordField) : M unit :=
  match field with
  | FieldPassword =>
      pw <- this password;;
      assign (set_passwordEntered (0 <? String.length pw)%nat);;
      entered <- this passwordEntered;;
      if negb entered then assign (set_passwordVisible false) else ret tt
  | FieldConfirmPassword =>
      pc <- this passwordConfirm;;
      assign (set_confirmPasswordEntered (0 <? String.length pc)%nat);;
      entered <- this confirmPasswordEntered;;
      if negb entered then assign (set_confirmPasswordVisible false)
      else ret tt
  end.

Definition autoValidatePrivacyIfReady : M unit :=
  inv <- this invalidFields;;
  valid <- this isFormValid;;
  let allInputsValid := (List.length inv =? 0)%nat && valid in
  accepted <- this privacyAccepted;;
  assign (set_showPrivacyError (allInputsValid && negb accepted)).

Definition validatePrivacy : M unit := autoValidatePrivacyIfReady.

Definition togglePasswordVisibility (field : PasswordField) : M unit :=
  match field with
  | FieldPassword =>
      pwEntered <- this passwordEntered;;
      if pwEntered
      then v <- this passwordVisible;; assign (set_passwordVisible (negb v))
      else ret tt
  | FieldConfirmPassword =>
      cpEntered <- this confirmPasswordEntered;;
      if cpEntered
      then v <- this confirmPasswordVisible;;
           assign (set_confirmPasswordVisible (negb v))
      else ret tt
  end.

(** The closure [addFieldIfInvalid] of [validateForm]. *)
Definition addFieldIfInvalid (condition : bool) (fieldName : string)
  : M unit :=
  observe_check fieldName condition;;
  inv <- this invalidFields;;
  if condition && negb (Js.includes inv fieldName) then
    assign (set_invalidFields (inv ++ [fieldName]))
  else if negb condition then
    assign (set_invalidFields
              (filter (fun f => negb (String.eqb f fieldName)) inv))
  else ret tt.

Definition validateName (addFieldIfInvalid : bool -> string -> M unit)
  : M unit :=
  n <- this name;;
  let isInvalid := negb (Js.truthy n)
                   || (String.length (Js.trim n) <? 2)%nat in
  addFieldIfInvalid isInvalid "name".

Definition validateMail (addFieldIfInvalid : bool -> string -> M unit)
  : M unit :=
  e <- this email;;
  let email := Js.toLowerCase (Js.trim e) in
  let isInvalid := negb (Js.truthy email)
                   || negb (Regex.test emailRegex email) in
  addFieldIfInvalid isInvalid "email".

(** [validatePassword] calls back into [this.validateForm], which is a
    parameter here and tied below. *)
Definition validatePassword (validateForm : string -> M unit)
    (addFieldIfInvalid : bool -> string -> M unit) : M unit :=
  pw <- this password;;
  let isInvalid := negb (Js.truthy pw) || (String.length pw <? 6)%nat in
  addFieldIfInvalid isInvalid "password";;
  cp <- this (fun c => ud_confirmPassword (newUserData c));;
  if Js.truthy cp then validateForm "confirmPassword" else ret tt.

Definition validateConfirmedPassword
    (addFieldIfInvalid : bool -> string -> M unit) : M unit :=
  pc <- this passwordConfirm;;
  pw <- this password;;
  let isInvalid := negb (String.eqb pc pw) in
  addFieldIfInvalid isInvalid "confirmPassword".

(** The body of [validateForm], with its own recursive reference as a
    parameter. *)
Definition validateForm_body (validateForm : string -> M unit)
    (field : string) : M unit :=
  (if String.eqb field "name" then validateName addFieldIfInvalid
   else ret tt);;
  (if String.eqb field "email" then validateMail addFieldIfInvalid
   else ret tt);;
  (if String.eqb field "password"
   then validatePassword validateForm addFieldIfInvalid
   else ret tt);;
  (if String.eqb field "confirmPassword"
   then validateConfirmedPassword addFieldIfInvalid
   else ret tt);;
  autoValidatePrivacyIfReady.

Fixpoint validateForm_fuel (fuel : nat) (field : string) : M unit :=
  match fuel with
  | O => out_of_fuel
  | S fuel' => validateForm_body (validateForm_fuel fuel') field
  end.

(** [validateForm]: a call nests at most once (['password'] re-entering
    with ['confirmPassword']), so two levels suffice; see
    [validateForm_fuel_enough]. *)
Definition validateForm (field : string) : M unit :=
  validateForm_fuel 2 field.

Definition closePrivacy : M unit := assign (set_showPrivacy false).

Section WithServices.

Variable svc : Services.

Definition register (e p n : string) : M unit :=
  extcall (CallRegister e p n) (sv_register svc e p n).

Definition addContact (c : Contact) : M unit :=
  extcall (CallAddContact c) (sv_addContact svc c).

Definition getUsername (e : string) : M string :=
  extcall (CallGetUsername e) (sv_getUsername svc e).

Definition navigate (commands : list string) : M unit :=
  extcall (CallNavigate commands) (sv_navigate svc commands).

Definition show (msg : string) : M unit :=
  extcall (CallShow msg) (sv_show svc msg).

Definition setItem (key value : string) : M unit :=
  extcall (CallSetItem key value) (sv_setItem svc key value).

(** [this.authService.UserLoggedIn = v] *)
Definition set_UserLoggedIn (v : string) : M unit :=
  fun w => Some (Normal tt,
                 with_ext (fun e => mkExt (contactList e) v) w).

Definition onRegister : M unit :=
  pw <- this password;;
  pc <- this passwordConfirm;;
  if String.eqb pw pc then
    try_catch
      (e <- this email;; p <- this password;; n <- this name;;
       register e p n;;
       inUse <- reads checkIfMailinUseInContact;;
       (if negb inUse then
          n <- this name;; e <- this email;;
          addContact (mkContact n e "Not existing yet")
        else ret tt);;
       e <- this email;;
       u <- getUsername e;;
       set_UserLoggedIn u;;
       navigate ["/login"];;
       show "Registration successful")
      (fun err => assign (set_error (message err)))
  else ret tt.

Definition goToAnotherPage (target : string) : M unit :=
  navigate [target].

Definition onBackClick : M unit :=
  setItem "skipLoginAnimation" "true";;
  navigate ["/"].

(** *** The component as a transition system

    What can happen to an instance: the template's two-way bindings
    write the input members, the services' exposed state changes
    between events, and the template or the framework calls a method. *)
Inductive Op : Type :=
| InputName (v : string)
| InputEmail (v : string)
| InputPassword (v : string)
| InputPasswordConfirm (v : string)
| InputPrivacyAccepted (v : bool)
| InputShowPrivacy (v : bool)
| ExtChanged (e : Ext)
| OnPasswordInput (field : PasswordField)
| ValidatePrivacy
| TogglePasswordVisibility (field : PasswordField)
| OnRegister
| ValidateForm (field : string)
| AutoValidatePrivacyIfReady
| GoToAnotherPage (target : string)
| OnBackClick
| ClosePrivacy.

Definition perform (op : Op) : M unit :=
  match op with
  | InputName v => assign (set_name v)
  | InputEmail v => assign (set_email v)
  | InputPassword v => assign (set_password v)
  | InputPasswordConfirm v => assign (set_passwordConfirm v)
  | InputPrivacyAccepted v => assign (set_privacyAccepted v)
  | InputShowPrivacy v => assign (set_showPrivacy v)
  | ExtChanged e => fun w => Some (Normal tt, with_ext (fun _ => e) w)
  | OnPasswordInput f => onPasswordInput f
  | ValidatePrivacy => validatePrivacy
  | TogglePasswordVisibility f => togglePasswordVisibility f
  | OnRegister => onRegister
  | ValidateForm f => validateForm f
  | AutoValidatePrivacyIfReady => autoValidatePrivacyIfReady
  | GoToAnotherPage t => goToAnotherPage t
  | OnBackClick => onBackClick
  | ClosePrivacy => closePrivacy
  end.

(** A freshly constructed instance, before any event. *)
Definition initialWorld (e : Ext) : World :=
  mkWorld initialComponent e [] [].

(** Run a sequence of events; a method that throws leaves the world as
    it was at the throw. *)
Fixpoint run (ops : list Op) (w : World) : option World :=
  match ops with
  | [] => Some w
  | op :: ops' =>
      match perform op w with
      | None => None
      | Some (_, w') => run ops' w'
      end
  end.

Inductive Reachable : World -> Prop :=
| reach_init e : Reachable (initialWorld e)
| reach_step w op r w' :
    Reachable w -> perform op w = Some (r, w') -> Reachable w'.

End WithServices.

(** The most recent check recorded for [field], if any. *)
Fixpoint lastCheck (field : string) (l : list (string * bool))
  : option bool :=
  match l with
  | [] => None
  | (g, b) :: l' =>
      match lastCheck field l' with
      | Some r => Some r
      | None => if String.eqb g field then Some b else None
      end
  end.

(** The calls of one kind in a stretch of the log. *)
Definition isRegister (ev : Event) : bool :=
  match ev_call ev with CallRegister _ _ _ => true | _ => false end.

Definition isAddContact (ev : Event) : bool :=
  match ev_call ev with CallAddContact _ => true | _ => false end.

Definition isNavigate (ev : Event) : bool :=
  match ev_call ev with CallNavigate _ => true | _ => false end.

Definition isShow (ev : Event) : bool :=
  match ev_call ev with CallShow _ => true | _ => false end.

(** Calls on the auth service. *)
Definition isAuthCall (ev : Event) : bool :=
  match ev_call ev with
  | CallRegister _ _ _ | CallGetUsername _ => true
  | _ => false
  end.

(* ------------------------------------------------------------------ *)
(** ** The validators as functions on the world

    What the per-field checks compute and what a validation call leaves
    behind, written as plain functions; [addFieldIfInvalid_eq],
    [autoValidatePrivacyIfReady_eq] and [validateForm_eq] show the method
    bodies above compute exactly these. *)

Definition nameInvalid (c : SignupComponent) : bool :=
  negb (Js.truthy (name c)) || (String.length (Js.trim (name c)) <? 2)%nat.

Definition emailInvalid (c : SignupComponent) : bool :=
  negb (Js.truthy (Js.toLowerCase (Js.trim (email c))))
  || negb (Regex.test emailRegex (Js.toLowerCase (Js.trim (email c)))).

Definition passwordInvalid (c : SignupComponent) : bool :=
  negb (Js.truthy (password c)) || (String.length (password c) <? 6)%nat.

Definition confirmInvalid (c : SignupComponent) : bool :=
  negb (String.eqb (passwordConfirm c) (password c)).

Definition checkedFields (condition : bool) (fieldName : string)
    (inv : list string) : list string :=
  if condition && negb (Js.includes inv fieldName) then inv ++ [fieldName]
  else if negb condition
       then filter (fun f => negb (String.eqb f fieldName)) inv
       else inv.

Definition afterCheck (condition : bool) (fieldName : string) (w : World)
  : World :=
  mkWorld
    (set_invalidFields
       (checkedFields condition fieldName (invalidFields (self w))) (self w))
    (ext w) (calls w) (checks w ++ [(fieldName, condition)]).

Definition privacyFlag (c : SignupComponent) : bool :=
  ((List.length (invalidFields c) =? 0)%nat && isFormValid c)
  && negb (privacyAccepted c).

Definition afterAuto (w : World) : World :=
  with_self (fun c => set_showPrivacyError (privacyFlag c) c) w.

Definition afterPassword (w : World) : World :=
  let w1 := afterCheck (passwordInvalid (self w)) "password" w in
  if Js.truthy (ud_confirmPassword (newUserData (self w1)))
  then afterAuto (afterCheck (confirmInvalid (self w1)) "confirmPassword" w1)
  else w1.

Definition validated (field : string) (w : World) : World :=
  let w1 := if String.eqb field "name"
            then afterCheck (nameInvalid (self w)) "name" w else w in
  let w2 := if String.eqb field "email"
            then afterCheck (emailInvalid (self w1)) "email" w1 else w1 in
  let w3 := if String.eqb field "password" then afterPassword w2 else w2 in
  let w4 := if String.eqb field "confirmPassword"
            then afterCheck (confirmInvalid (self w3)) "confirmPassword" w3
            else w3 in
  afterAuto w4.

(** The part of the world the invalid-field bookkeeping lives in. *)
Definition core (w : World) : list string * Userdata * list (string * bool) :=
  (invalidFields (self w), newUserData (self w), checks w).

(** [m] never changes the bookkeeping. *)
Definition keeps_core {A} (m : M A) : Prop :=
  forall w r w', m w = Some (r, w') -> core w' = core w.

(** [m] always returns (normally or by throwing). *)
Definition returns {A} (m : M A) : Prop :=
  forall w, exists r w', m w = Some (r, w').

(** The invalid-field set agrees with the last recorded checks. *)
Definition Tracks (w : World) : Prop :=
  forall f, In f (invalidFields (self w))
            <-> lastCheck f (checks w) = Some true.

(** The calls logged since [w]. *)
Definition since (w w' : World) : list Event :=
  skipn (List.length (calls w)) (calls w').


(** Two worlds that differ at most in the observation logs. *)
Definition same_state (w1 w2 : World) : Prop :=
  self w1 = self w2 /\ ext w1 = ext w2.

(** [m] neither reads the logs nor lets them decide anything: from
    worlds with the same component and services it completes the same
    way, in worlds with the same component and services. *)
Definition oblivious {A} (m : M A) : Prop :=
  forall w1 w2, same_state w1 w2 ->
    match m w1, m w2 with
    | Some (r1, w1'), Some (r2, w2') => r1 = r2 /\ same_state w1' w2'
    | None, None => True
    | _, _ => False
    end.

(** The rule the show-privacy-error flag obeys after a validation call. *)
Definition PrivacyRule (c : SignupComponent) : Prop :=
  showPrivacyError c = true
  <-> invalidFields c = []
      /\ 2 <= String.length (Js.trim (name c))
      /\ Regex.test emailRegex (email c) = true
      /\ 6 <= String.length (password c)
      /\ 6 <= String.length (passwordConfirm c)
      /\ privacyAccepted c = false.


(** Services that resolve every call and change nothing; [getUsername]
    answers with the email it is given. *)
Definition quietServices : Services :=
  mkServices (fun _ _ _ e => (Normal tt, e))
             (fun _ e => (Normal tt, e))
             (fun s e => (Normal s, e))
             (fun _ e => (Normal tt, e))
             (fun _ e => (Normal tt, e))
             (fun _ _ e => (Normal tt, e)).

(** As [quietServices], but [register] throws an error with message
    [msg]. *)
Definition rejectingServices (msg : string) : Services :=
  mkServices (fun _ _ _ e => (Throw (mkError msg), e))
             (fun _ e => (Normal tt, e))
             (fun s e => (Normal s, e))
             (fun _ e => (Normal tt, e))
             (fun _ e => (Normal tt, e))
             (fun _ _ e => (Normal tt, e)).

Definition noContacts : Ext := mkExt [] "".

(** A filled-in form: every field valid, passwords equal. *)
Definition filledComponent : SignupComponent :=
  set_name "Ada Lovelace"
    (set_email "ada@example.org"
       (set_password "secret1"
          (set_passwordConfirm "secret1" initialComponent))).

Definition filledWorld : World := mkWorld filledComponent noContacts [] [].

(** The same form with a confirmation that differs from the password. *)
Definition mistypedWorld : World :=
  with_self (set_passwordConfirm "secret2") filledWorld.

(** Password and confirmation both ["abc"]: equal, and too short. *)
Definition shortPasswordsWorld : World :=
  with_self (fun c => set_password "abc" (set_passwordConfirm "abc" c))
    (initialWorld noContacts).


(* ------------------------------------------------------------------ *)
(** ** Further vocabulary *)

(** The four names [validateForm] knows. *)
Definition knownFields : list string :=
  ["name"; "email"; "password"; "confirmPassword"].

(** Every character of [s] satisfies [p]. *)
Fixpoint allChars (p : ascii -> bool) (s : string) : bool :=
  match s with
  | EmptyString => true
  | String c s' => p c && allChars p s'
  end.

(** The three character classes of the email pattern. *)
Definition localChars : list (ascii * ascii) :=
  [("a","z"); ("A","Z"); ("0","9"); (".","."); ("_","_");
   ("%","%"); ("+","+"); ("-","-")]%char.

Definition domainChars : list (ascii * ascii) :=
  [("a","z"); ("A","Z"); ("0","9"); (".","."); ("-","-")]%char.

Definition alphaChars : list (ascii * ascii) :=
  [("a","z"); ("A","Z")]%char.

(** A character that can occur in a string the email pattern accepts. *)
Definition emailChar (c : ascii) : bool :=
  Regex.inClass localChars c || Ascii.eqb c "@".

(** A password field is shown in clear only after text was entered. *)
Definition HiddenUnlessEntered (c : SignupComponent) : Prop :=
  (passwordVisible c = true -> passwordEntered c = true)
  /\ (confirmPasswordVisible c = true -> confirmPasswordEntered c = true).

(** One validation pass over the whole form. *)
Definition fullPass : list Op :=
  [ValidateForm "name"; ValidateForm "email"; ValidateForm "password";
   ValidateForm "confirmPassword"].



(** Services that throw nowhere and whose router and feedback service
    leave the exposed state of the other services alone. *)
Definition calmUi (svc : Services) : Prop :=
  (forall cmds e, sv_navigate svc cmds e = (Normal tt, e))
  /\ (forall msg e, sv_show svc msg e = (Normal tt, e)).

(** As [quietServices], but the contact service rejects the write. *)
Definition contactFailingServices (msg : string) : Services :=
  mkServices (fun _ _ _ e => (Normal tt, e))
             (fun _ e => (Throw (mkError msg), e))
             (fun s e => (Normal s, e))
             (fun _ e => (Normal tt, e))
             (fun _ e => (Normal tt, e))
             (fun _ _ e => (Normal tt, e)).

(** As [quietServices], but [localStorage.setItem] throws. *)
Definition storageFailingServices (msg : string) : Services :=
  mkServices (fun _ _ _ e => (Normal tt, e))
             (fun _ e => (Normal tt, e))
             (fun s e => (Normal s, e))
             (fun _ e => (Normal tt, e))
             (fun _ e => (Normal tt, e))
             (fun _ _ e => (Throw (mkError msg), e)).


(** The component after a validation call that leaves the list [l]: the
    list is stored and the privacy flag recomputed. *)
Definition settled (l : list string) (c : SignupComponent)
  : SignupComponent :=
  set_showPrivacyError (privacyFlag (set_invalidFields l c))
    (set_invalidFields l c).

(** The invalid-field list [validateForm field] leaves, from the list
    [inv], for the input members of [c]. *)
Definition fieldsAfter (field : string) (c : SignupComponent)
    (inv : list string) : list string :=
  let l1 := if String.eqb field "name"
            then checkedFields (nameInvalid c) "name" inv else inv in
  let l2 := if String.eqb field "email"
            then checkedFields (emailInvalid c) "email" l1 else l1 in
  let l3 := if String.eqb field "password"
            then
              let l := checkedFields (passwordInvalid c) "password" l2 in
              if Js.truthy (ud_confirmPassword (newUserData c))
              then checkedFields (confirmInvalid c) "confirmPassword" l
              else l
            else l2 in
  if String.eqb field "confirmPassword"
  then checkedFields (confirmInvalid c) "confirmPassword" l3 else l3.


(** The error of the first logged call that threw, if any. *)
Fixpoint firstThrow (l : list Event) : option JsError :=
  match l with
  | [] => None
  | ev :: l' =>
      match ev_threw ev with
      | Some e => Some e
      | None => firstThrow l'
      end
  end.



(** The members behind one password field. *)
Definition fieldValue (f : PasswordField) (c : SignupComponent) : string :=
  match f with
  | FieldPassword => password c
  | FieldConfirmPassword => passwordConfirm c
  end.

Definition fieldVisible (f : PasswordField) (c : SignupComponent) : bool :=
  match f with
  | FieldPassword => passwordVisible c
  | FieldConfirmPassword => confirmPasswordVisible c
  end.

Definition fieldEntered (f : PasswordField) (c : SignupComponent) : bool :=
  match f with
  | FieldPassword => passwordEntered c
  | FieldConfirmPassword => confirmPasswordEntered c
  end.

(** The invalid-field list holds known names only, each once. *)
Definition Known (w : World) : Prop :=
  incl (invalidFields (self w)) knownFields
  /\ NoDup (invalidFields (self w)).

(* ------------------------------------------------------------------ *)
(** ** The derivative test decides the language of a pattern *)

Module RegexFacts.
Import Regex.

Lemma append_empty (s1 s2 : string) :
  (s1 ++ s2)%string = "" -> s1 = "" /\ s2 = "".
Proof.
  destruct s1; simpl; intros H; [auto | discriminate].
Qed.

Lemma matches_empty_nullable r s :
  Matches r s -> s = "" -> nullable r = true.
Proof.
  induction 1; simpl; intros E; try discriminate; auto.
  - apply append_empty in E. destruct E as [E1 E2].
    rewrite IHMatches1, IHMatches2; auto.
  - rewrite IHMatches; auto.
  - rewrite IHMatches; auto using orb_true_r.
Qed.

Lemma nullable_matches_empty r : nullable r = true -> Matches r "".
Proof.
  induction r; simpl; intros H; try discriminate.
  - constructor.
  - apply andb_true_iff in H. destruct H as [H1 H2].
    change "" with ("" ++ "")%string. constructor; auto.
  - apply orb_true_iff in H. destruct H as [H | H].
    + apply MAltL; auto.
    + apply MAltR; auto.
  - constructor.
Qed.

Lemma matches_deriv r s' :
  Matches r s' -> forall c s, s' = String c s -> Matches (deriv c r) s.
Proof.
  induction 1; intros a t E; simpl; try discriminate.
  - injection E as -> <-. rewrite H. constructor.
  - destruct s1 as [| b s1']; simpl in E.
    + subst s2.
      rewrite (matches_empty_nullable _ _ H eq_refl).
      apply MAltR. apply IHMatches2; reflexivity.
    + injection E as -> <-.
      assert (D : Matches (Cat (deriv a r1) r2) (s1' ++ s2)%string)
        by (constructor; auto).
      destruct (nullable r1); [apply MAltL |]; exact D.
  - apply MAltL; auto.
  - apply MAltR; auto.
  - simpl in E. injection E as -> <-.
    constructor; auto.
Qed.

Lemma deriv_matches r : forall c s,
  Matches (deriv c r) s -> Matches r (String c s).
Proof.
  induction r; intros a s H; simpl in H.
  - inversion H.
  - inversion H.
  - destruct (inClass ranges a) eqn:E; inversion H; subst.
    constructor; exact E.
  - assert (L : forall t, Matches (Cat (deriv a r1) r2) t ->
                          Matches (Cat r1 r2) (String a t)).
    { intros t Ht. inversion Ht; subst.
      change (String a (s1 ++ s2)%string)
        with (String a s1 ++ s2)%string.
      constructor; auto. }
    destruct (nullable r1) eqn:N.
    + inversion H; subst.
      * apply L; assumption.
      * change (String a s) with ("" ++ String a s)%string.
        constructor; auto using nullable_matches_empty.
    + apply L; assumption.
  - inversion H; subst.
    + apply MAltL; auto.
    + apply MAltR; auto.
  - inversion H; subst.
    change (String a (s1 ++ s2)%string) with (String a s1 ++ s2)%string.
    constructor; auto.
Qed.

(** [test] is membership in the language of the pattern. *)
Lemma test_spec : forall s r, test r s = true <-> Matches r s.
Proof.
  induction s as [| c s IH]; intros r; simpl.
  - split.
    + apply nullable_matches_empty.
    + intros H. eapply matches_empty_nullable; eauto.
  - rewrite IH. split.
    + apply deriv_matches.
    + intros H. eapply matches_deriv; eauto.
Qed.

End RegexFacts.

(* ------------------------------------------------------------------ *)
(** ** The method bodies compute the functions above *)

Lemma set_invalidFields_same c : set_invalidFields (invalidFields c) c = c.
Proof. destruct c; reflexivity. Qed.

Lemma addFieldIfInvalid_eq condition fieldName w :
  addFieldIfInvalid condition fieldName w
  = Some (Normal tt, afterCheck condition fieldName w).
Proof.
  unfold addFieldIfInvalid, afterCheck, checkedFields, bind, observe_check,
    this, assign, ret, with_self; simpl.
  destruct (condition && negb (Js.includes (invalidFields (self w)) fieldName));
    [reflexivity |].
  destruct (negb condition); [reflexivity |].
  rewrite set_invalidFields_same. reflexivity.
Qed.

Lemma autoValidatePrivacyIfReady_eq w :
  autoValidatePrivacyIfReady w = Some (Normal tt, afterAuto w).
Proof. reflexivity. Qed.

Lemma validateName_eq w :
  validateName addFieldIfInvalid w
  = Some (Normal tt, afterCheck (nameInvalid (self w)) "name" w).
Proof.
  unfold validateName, bind, this. apply addFieldIfInvalid_eq.
Qed.

Lemma validateMail_eq w :
  validateMail addFieldIfInvalid w
  = Some (Normal tt, afterCheck (emailInvalid (self w)) "email" w).
Proof.
  unfold validateMail, bind, this. apply addFieldIfInvalid_eq.
Qed.

Lemma validateConfirmedPassword_eq w :
  validateConfirmedPassword addFieldIfInvalid w
  = Some (Normal tt,
          afterCheck (confirmInvalid (self w)) "confirmPassword" w).
Proof.
  unfold validateConfirmedPassword, bind, this. apply addFieldIfInvalid_eq.
Qed.

(** The nested call of [validatePassword] is a call with the literal
    ['confirmPassword'], which needs no further nesting. *)
Lemma validateForm_body_confirm rec w :
  validateForm_body rec "confirmPassword" w
  = Some (Normal tt,
          afterAuto (afterCheck (confirmInvalid (self w))
                       "confirmPassword" w)).
Proof.
  unfold validateForm_body. simpl String.eqb. cbv iota.
  unfold bind at 1. unfold ret at 1.
  unfold bind at 1. unfold ret at 1.
  unfold bind at 1. unfold ret at 1.
  unfold bind. rewrite validateConfirmedPassword_eq.
  apply autoValidatePrivacyIfReady_eq.
Qed.

Lemma validatePassword_eq n w :
  validatePassword (validateForm_fuel (S n)) addFieldIfInvalid w
  = Some (Normal tt, afterPassword w).
Proof.
  unfold validatePassword, afterPassword, bind, this.
  rewrite addFieldIfInvalid_eq.
  change (passwordInvalid (self w))
    with (negb (Js.truthy (password (self w)))
          || (String.length (password (self w)) <? 6)%nat).
  set (w1 := afterCheck _ "password" w).
  destruct (Js.truthy (ud_confirmPassword (newUserData (self w1)))).
  - simpl validateForm_fuel. apply validateForm_body_confirm.
  - reflexivity.
Qed.

Lemma validateForm_fuel_eq n field w :
  validateForm_fuel (S (S n)) field w = Some (Normal tt, validated field w).
Proof.
  change (validateForm_fuel (S (S n)) field)
    with (validateForm_body (validateForm_fuel (S n)) field).
  unfold validateForm_body, validated.
  unfold bind at 1.
  destruct (String.eqb field "name");
    [rewrite validateName_eq | unfold ret at 1];
    (unfold bind at 1;
     destruct (String.eqb field "email");
       [rewrite validateMail_eq | unfold ret at 1];
     (unfold bind at 1;
      destruct (String.eqb field "password");
        [rewrite validatePassword_eq | unfold ret at 1];
      (unfold bind at 1;
       destruct (String.eqb field "confirmPassword");
         [rewrite validateConfirmedPassword_eq | unfold ret at 1];
       apply autoValidatePrivacyIfReady_eq))).
Qed.

(** [validateForm] returns normally on every input, with the world
    [validated] describes. *)
Lemma validateForm_eq field w :
  validateForm field w = Some (Normal tt, validated field w).
Proof. apply validateForm_fuel_eq. Qed.

(** More fuel changes nothing: the recursion is never deeper than two. *)
Lemma validateForm_fuel_enough n field w :
  validateForm_fuel (2 + n) field w = validateForm field w.
Proof.
  unfold validateForm. change (2 + n) with (S (S n)).
  rewrite (validateForm_fuel_eq n), (validateForm_fuel_eq 0). reflexivity.
Qed.

(** With the literal field names the four tests are exclusive. *)
Lemma validated_name w :
  validated "name" w = afterAuto (afterCheck (nameInvalid (self w)) "name" w).
Proof. reflexivity. Qed.

Lemma validated_email w :
  validated "email" w
  = afterAuto (afterCheck (emailInvalid (self w)) "email" w).
Proof. reflexivity. Qed.

Lemma validated_password w :
  validated "password" w = afterAuto (afterPassword w).
Proof. reflexivity. Qed.

Lemma validated_confirmPassword w :
  validated "confirmPassword" w
  = afterAuto (afterCheck (confirmInvalid (self w)) "confirmPassword" w).
Proof. reflexivity. Qed.


(* ------------------------------------------------------------------ *)
(** ** The logs are observations only

    The call log and the check log are written by the model and read by
    no method: erasing or changing them changes neither how a method
    completes nor the component and services it leaves. *)

Lemma oblivious_ret {A} (a : A) : oblivious (ret a).
Proof. intros w1 w2 S. simpl. auto. Qed.

Lemma oblivious_this {A} (f : SignupComponent -> A) : oblivious (this f).
Proof. intros w1 w2 [S1 S2]. simpl. rewrite S1. split; [| split]; auto. Qed.

Lemma oblivious_assign f : oblivious (assign f).
Proof.
  intros w1 w2 [S1 S2]. simpl. split; [reflexivity |].
  split; simpl; congruence.
Qed.

Lemma oblivious_observe_check f b : oblivious (observe_check f b).
Proof. intros w1 w2 S. simpl. auto. Qed.

Lemma oblivious_extcall {A} c (oracle : Ext -> Completion A * Ext) :
  oblivious (extcall c oracle).
Proof.
  intros w1 w2 [S1 S2]. unfold extcall. rewrite S2.
  destruct (oracle (ext w2)) as [r e']. split; [reflexivity |].
  split; simpl; congruence.
Qed.

Lemma oblivious_bind {A B} (m : M A) (k : A -> M B) :
  oblivious m -> (forall a, oblivious (k a)) -> oblivious (bind m k).
Proof.
  intros Hm Hk w1 w2 S. unfold bind. specialize (Hm w1 w2 S).
  destruct (m w1) as [[[a1 | e1] v1] |], (m w2) as [[[a2 | e2] v2] |];
    try contradiction; try (destruct Hm; discriminate); auto;
    destruct Hm as [E S']; injection E as ->.
  - apply Hk; exact S'.
  - auto.
Qed.

Lemma oblivious_try_catch {A} (m : M A) (h : JsError -> M A) :
  oblivious m -> (forall e, oblivious (h e)) -> oblivious (try_catch m h).
Proof.
  intros Hm Hh w1 w2 S. unfold try_catch. specialize (Hm w1 w2 S).
  destruct (m w1) as [[[a1 | e1] v1] |], (m w2) as [[[a2 | e2] v2] |];
    try contradiction; try (destruct Hm; discriminate); auto.
  destruct Hm as [E S']. injection E as ->. apply Hh; exact S'.
Qed.

Lemma oblivious_if {A} (b : bool) (m1 m2 : M A) :
  oblivious m1 -> oblivious m2 -> oblivious (if b then m1 else m2).
Proof. destruct b; auto. Qed.

Lemma oblivious_checkIfMailinUseInContact :
  oblivious (reads checkIfMailinUseInContact).
Proof.
  intros w1 w2 [S1 S2]. simpl. unfold checkIfMailinUseInContact.
  rewrite S1, S2. split; [| split]; auto.
Qed.

Lemma oblivious_set_UserLoggedIn v : oblivious (set_UserLoggedIn v).
Proof.
  intros w1 w2 [S1 S2]. simpl. split; [reflexivity |].
  split; simpl; congruence.
Qed.

Create HintDb obs.
#[local] Hint Resolve oblivious_ret oblivious_this oblivious_assign
  oblivious_observe_check oblivious_extcall oblivious_if
  oblivious_checkIfMailinUseInContact oblivious_set_UserLoggedIn : obs.
#[local] Hint Extern 2 (oblivious (bind _ _)) =>
  apply oblivious_bind; [| intro] : obs.
#[local] Hint Extern 2 (oblivious (try_catch _ _)) =>
  apply oblivious_try_catch; [| intro] : obs.

Lemma oblivious_addFieldIfInvalid b f : oblivious (addFieldIfInvalid b f).
Proof. unfold addFieldIfInvalid. auto 10 with obs. Qed.

Lemma oblivious_auto : oblivious autoValidatePrivacyIfReady.
Proof. unfold autoValidatePrivacyIfReady. auto 10 with obs. Qed.

Lemma oblivious_validateForm_fuel n :
  forall field, oblivious (validateForm_fuel n field).
Proof.
  pose proof oblivious_addFieldIfInvalid. pose proof oblivious_auto.
  induction n as [| n IH]; intros field; simpl.
  - intros w1 w2 _. exact I.
  - unfold validateForm_body, validateName, validateMail, validatePassword,
      validateConfirmedPassword.
    auto 20 with obs.
Qed.

Lemma oblivious_perform svc op : oblivious (perform svc op).
Proof.
  pose proof oblivious_auto.
  destruct op; simpl; auto with obs.
  - intros w1 w2 [S1 S2]. simpl. split; [reflexivity |]. split; auto.
  - destruct field; unfold onPasswordInput; auto 10 with obs.
  - destruct field; unfold togglePasswordVisibility; auto 10 with obs.
  - unfold onRegister, register, addContact, getUsername, navigate, show.
    auto 30 with obs.
  - apply oblivious_validateForm_fuel.
  - unfold goToAnotherPage, navigate. auto with obs.
  - unfold onBackClick, navigate, setItem. auto with obs.
  - unfold closePrivacy. auto with obs.
Qed.

(* ------------------------------------------------------------------ *)
(** ** The invalid-field bookkeeping *)

Lemma includes_In l x : Js.includes l x = true <-> In x l.
Proof.
  unfold Js.includes. rewrite existsb_exists. split.
  - intros [y [Hy E]]. apply String.eqb_eq in E. subst. exact Hy.
  - intros H. exists x. split; [exact H | apply String.eqb_refl].
Qed.

(** After a check of [f], [f] is listed exactly when the check reported
    it invalid, and every other name is listed as before. *)
Lemma In_checkedFields condition f inv g :
  In g (checkedFields condition f inv)
  <-> (g = f /\ condition = true) \/ (g <> f /\ In g inv).
Proof.
  unfold checkedFields.
  destruct condition; simpl.
  - destruct (Js.includes inv f) eqn:E; simpl.
    + apply includes_In in E.
      destruct (string_dec g f) as [-> | N]; intuition congruence.
    + rewrite in_app_iff. simpl.
      destruct (string_dec g f) as [-> | N]; [intuition |].
      split; [intros [H | [H | []]] | intros [[H _] | [_ H]]];
        auto; congruence.
  - rewrite filter_In, negb_true_iff, String.eqb_neq.
    intuition congruence.
Qed.

Lemma lastCheck_app g l f b :
  lastCheck g (l ++ [(f, b)])
  = if String.eqb f g then Some b else lastCheck g l.
Proof.
  induction l as [| [h c] l IH]; simpl.
  - reflexivity.
  - rewrite IH. destruct (String.eqb f g); reflexivity.
Qed.

Lemma Tracks_afterCheck condition f w :
  Tracks w -> Tracks (afterCheck condition f w).
Proof.
  intros T g. unfold afterCheck; simpl.
  rewrite In_checkedFields, lastCheck_app.
  destruct (String.eqb f g) eqn:E.
  - apply String.eqb_eq in E. subst g.
    split; [intros [[_ ->] | [N _]]; congruence |].
    intros H. left. split; congruence.
  - apply String.eqb_neq in E. rewrite <- (T g).
    split; [intros [[-> _] | [_ H]]; congruence | auto].
Qed.

Lemma Tracks_core w w' : core w' = core w -> Tracks w -> Tracks w'.
Proof.
  unfold core, Tracks. intros E T g.
  injection E as -> _ ->. apply T.
Qed.

Lemma core_afterAuto w : core (afterAuto w) = core w.
Proof. reflexivity. Qed.

Lemma Tracks_afterAuto w : Tracks w -> Tracks (afterAuto w).
Proof. apply Tracks_core, core_afterAuto. Qed.

Lemma Tracks_afterPassword w : Tracks w -> Tracks (afterPassword w).
Proof.
  intros T. unfold afterPassword.
  destruct (Js.truthy _); auto using Tracks_afterCheck, Tracks_afterAuto.
Qed.

Lemma Tracks_validated field w : Tracks w -> Tracks (validated field w).
Proof.
  intros T. unfold validated.
  apply Tracks_afterAuto.
  repeat match goal with
         | |- Tracks (if ?b then _ else _) => destruct b
         | |- Tracks (afterCheck _ _ _) => apply Tracks_afterCheck
         | |- Tracks (afterPassword _) => apply Tracks_afterPassword
         end; exact T.
Qed.

Lemma newUserData_afterCheck condition f w :
  newUserData (self (afterCheck condition f w)) = newUserData (self w).
Proof. reflexivity. Qed.

Lemma newUserData_validated field w :
  newUserData (self (validated field w)) = newUserData (self w).
Proof.
  unfold validated, afterPassword.
  repeat match goal with
         | |- context [if ?b then _ else _] => destruct b
         end; reflexivity.
Qed.

(** *** Methods that leave the bookkeeping alone *)

Lemma keeps_core_ret {A} (a : A) : keeps_core (ret a).
Proof. intros w r w' H. inversion H. reflexivity. Qed.

Lemma keeps_core_this {A} (f : SignupComponent -> A) : keeps_core (this f).
Proof. intros w r w' H. inversion H. reflexivity. Qed.

Lemma keeps_core_reads {A} (f : World -> A) : keeps_core (reads f).
Proof. intros w r w' H. inversion H. reflexivity. Qed.

Lemma keeps_core_bind {A B} (m : M A) (k : A -> M B) :
  keeps_core m -> (forall a, keeps_core (k a)) -> keeps_core (bind m k).
Proof.
  intros Hm Hk w r w' H. unfold bind in H.
  destruct (m w) as [[[a | e] w1] |] eqn:E; try discriminate.
  - rewrite (Hk a _ _ _ H). eapply Hm; eauto.
  - inversion H; subst. eapply Hm; eauto.
Qed.

Lemma keeps_core_try_catch {A} (m : M A) (h : JsError -> M A) :
  keeps_core m -> (forall e, keeps_core (h e)) -> keeps_core (try_catch m h).
Proof.
  intros Hm Hh w r w' H. unfold try_catch in H.
  destruct (m w) as [[[a | e] w1] |] eqn:E; try discriminate.
  - inversion H; subst. eapply Hm; eauto.
  - rewrite (Hh e _ _ _ H). eapply Hm; eauto.
Qed.

Lemma keeps_core_assign (f : SignupComponent -> SignupComponent) :
  (forall c, invalidFields (f c) = invalidFields c
             /\ newUserData (f c) = newUserData c) ->
  keeps_core (assign f).
Proof.
  intros Hf w r w' H. inversion H; subst. unfold core; simpl.
  destruct (Hf (self w)) as [-> ->]. reflexivity.
Qed.

Lemma keeps_core_extcall {A} c (oracle : Ext -> Completion A * Ext) :
  keeps_core (extcall c oracle).
Proof.
  intros w r w' H. unfold extcall in H.
  destruct (oracle (ext w)). inversion H. reflexivity.
Qed.

Lemma keeps_core_if {A} (b : bool) (m1 m2 : M A) :
  keeps_core m1 -> keeps_core m2 -> keeps_core (if b then m1 else m2).
Proof. destruct b; auto. Qed.

Create HintDb frame.
#[local] Hint Resolve keeps_core_ret keeps_core_this keeps_core_reads
  keeps_core_extcall keeps_core_if : frame.
#[local] Hint Extern 2 (keeps_core (bind _ _)) =>
  apply keeps_core_bind; [| intro] : frame.
#[local] Hint Extern 2 (keeps_core (try_catch _ _)) =>
  apply keeps_core_try_catch; [| intro] : frame.
#[local] Hint Extern 2 (keeps_core (assign _)) =>
  apply keeps_core_assign; intro; split; reflexivity : frame.

Ltac frame := auto 30 with frame.

Section Frames.
Variable svc : Services.

Lemma keeps_core_onPasswordInput f : keeps_core (onPasswordInput f).
Proof. destruct f; unfold onPasswordInput; frame. Qed.

Lemma keeps_core_auto : keeps_core autoValidatePrivacyIfReady.
Proof. unfold autoValidatePrivacyIfReady; frame. Qed.

Lemma keeps_core_toggle f : keeps_core (togglePasswordVisibility f).
Proof. destruct f; unfold togglePasswordVisibility; frame. Qed.

Lemma keeps_core_set_UserLoggedIn v : keeps_core (set_UserLoggedIn v).
Proof. intros w r w' H. inversion H. reflexivity. Qed.

Lemma keeps_core_onRegister : keeps_core (onRegister svc).
Proof.
  pose proof keeps_core_set_UserLoggedIn.
  unfold onRegister, register, addContact, getUsername, navigate, show.
  frame.
Qed.

Lemma keeps_core_goToAnotherPage t : keeps_core (goToAnotherPage svc t).
Proof. unfold goToAnotherPage, navigate; frame. Qed.

Lemma keeps_core_onBackClick : keeps_core (onBackClick svc).
Proof. unfold onBackClick, navigate, setItem; frame. Qed.

(** Every event other than a [validateForm] call keeps the
    bookkeeping; a [validateForm] call ends in [validated]. *)
Lemma perform_core op w r w' :
  perform svc op w = Some (r, w') ->
  core w' = core w
  \/ exists field, op = ValidateForm field /\ w' = validated field w.
Proof.
  destruct op; simpl; intros H;
    try (left;
         first [ eapply keeps_core_onPasswordInput; eassumption
               | eapply keeps_core_auto; eassumption
               | eapply keeps_core_toggle; eassumption
               | eapply keeps_core_onRegister; eassumption
               | eapply keeps_core_goToAnotherPage; eassumption
               | eapply keeps_core_onBackClick; eassumption
               | inversion H; reflexivity ]).
  right. exists field. rewrite validateForm_eq in H.
  inversion H. auto.
Qed.

(** No event gets stuck. *)
Lemma returns_extcall {A} c (oracle : Ext -> Completion A * Ext) :
  returns (extcall c oracle).
Proof.
  intros w. unfold extcall. destruct (oracle (ext w)); eauto.
Qed.

Lemma returns_bind {A B} (m : M A) (k : A -> M B) :
  returns m -> (forall a, returns (k a)) -> returns (bind m k).
Proof.
  intros Hm Hk w. unfold bind.
  destruct (Hm w) as [[a | e] [w1 ->]]; [apply Hk | eauto].
Qed.

Lemma returns_try_catch {A} (m : M A) (h : JsError -> M A) :
  returns m -> (forall e, returns (h e)) -> returns (try_catch m h).
Proof.
  intros Hm Hh w. unfold try_catch.
  destruct (Hm w) as [[a | e] [w1 ->]]; [eauto | apply Hh].
Qed.

Lemma returns_total {A} (m : M A) :
  (forall w, m w <> None) -> returns m.
Proof.
  intros H w. destruct (m w) as [[r w'] |] eqn:E; [eauto |].
  elim (H w E).
Qed.

Lemma returns_onRegister : returns (onRegister svc).
Proof.
  unfold onRegister.
  repeat first
    [ apply returns_bind; [| intro]
    | apply returns_try_catch; [| intro]
    | apply returns_extcall
    | match goal with |- returns (if ?b then _ else _) => destruct b end
    | apply returns_total; intros ? ?; discriminate ].
Qed.

Lemma perform_returns op : returns (perform svc op).
Proof.
  destruct op; simpl;
    try (apply returns_total; intros ? ?; discriminate).
  - destruct field; apply returns_total; intros w; unfold onPasswordInput,
      bind, this, assign; simpl; destruct (negb _); discriminate.
  - destruct field; apply returns_total; intros w;
      unfold togglePasswordVisibility, bind, this, assign; simpl;
      [destruct (passwordEntered _) | destruct (confirmPasswordEntered _)];
      discriminate.
  - apply returns_onRegister.
  - intros w. rewrite validateForm_eq. eauto.
  - apply returns_extcall.
  - unfold onBackClick. apply returns_bind; [| intro]; apply returns_extcall.
Qed.

(** Every sequence of events runs to its end. *)
Lemma run_total ops : forall w, exists w', run svc ops w = Some w'.
Proof.
  induction ops as [| op ops IH]; intros w; simpl; [eauto |].
  destruct (perform_returns op w) as [r [w1 ->]]. apply IH.
Qed.

Lemma run_Reachable ops : forall w w',
  Reachable svc w -> run svc ops w = Some w' -> Reachable svc w'.
Proof.
  induction ops as [| op ops IH]; intros w w' R H; simpl in H.
  - inversion H; subst; exact R.
  - destruct (perform svc op w) as [[r w1] |] eqn:E; [| discriminate].
    eapply IH; [| exact H]. econstructor; eauto.
Qed.

Lemma Reachable_Tracks w : Reachable svc w -> Tracks w.
Proof.
  induction 1 as [e | w op r w' R IH P].
  - intros f. simpl. split; [intros [] | discriminate].
  - destruct (perform_core _ _ _ _ P) as [E | [field [_ ->]]].
    + eapply Tracks_core; eauto.
    + apply Tracks_validated; exact IH.
Qed.

Lemma Reachable_newUserData w :
  Reachable svc w -> newUserData (self w) = mkUserdata "" "" "" "".
Proof.
  induction 1 as [e | w op r w' R IH P].
  - reflexivity.
  - destruct (perform_core _ _ _ _ P) as [E | [field [_ ->]]].
    + unfold core in E. injection E as _ E _. congruence.
    + rewrite newUserData_validated. exact IH.
Qed.

End Frames.

(* ------------------------------------------------------------------ *)
(** ** Registration *)

Lemma since_app w w' l : calls w' = calls w ++ l -> since w w' = l.
Proof.
  unfold since. intros ->.
  rewrite skipn_app, skipn_all, Nat.sub_diag. reflexivity.
Qed.

Lemma since_refl w : since w w = [].
Proof. apply since_app. rewrite app_nil_r. reflexivity. Qed.

(** Unfold [onRegister] and split on what each service call does. *)
Ltac step_oracle :=
  match goal with
  | |- context [sv_register ?s ?a ?b ?c ?e] =>
      destruct (sv_register s a b c e) as [[[] | ?] ?] eqn:?
  | |- context [sv_addContact ?s ?c ?e] =>
      destruct (sv_addContact s c e) as [[[] | ?] ?] eqn:?
  | |- context [sv_getUsername ?s ?a ?e] =>
      destruct (sv_getUsername s a e) as [[? | ?] ?] eqn:?
  | |- context [sv_navigate ?s ?a ?e] =>
      destruct (sv_navigate s a e) as [[[] | ?] ?] eqn:?
  | |- context [sv_show ?s ?a ?e] =>
      destruct (sv_show s a e) as [[[] | ?] ?] eqn:?
  end; simpl.

Ltac unfold_onRegister :=
  unfold onRegister, try_catch, bind, this, reads, assign, ret, register,
    addContact, getUsername, navigate, show, set_UserLoggedIn, extcall,
    with_self, with_ext, checkIfMailinUseInContact; simpl.

Section Registration.
Variable svc : Services.

(** With different passwords [onRegister] does nothing at all. *)
Lemma onRegister_mismatch w :
  String.eqb (password (self w)) (passwordConfirm (self w)) = false ->
  onRegister svc w = Some (Normal tt, w).
Proof.
  intros E. unfold onRegister, bind, this, ret. rewrite E. reflexivity.
Qed.

(** With equal passwords the first thing [onRegister] does is call
    [register] with the entered email, password and name. *)
Lemma onRegister_match w :
  String.eqb (password (self w)) (passwordConfirm (self w)) = true ->
  exists r w' threw rest,
    onRegister svc w = Some (r, w')
    /\ since w w'
       = mkEvent (CallRegister (email (self w)) (password (self w))
                    (name (self w))) threw :: rest
    /\ filter isRegister rest = [].
Proof.
  intros E. unfold_onRegister. rewrite E.
  repeat first
    [ step_oracle
    | match goal with
      | |- context [if negb ?b then _ else _] => destruct b; simpl
      end ];
    do 4 eexists; (split; [reflexivity |]);
    (split; [apply since_app; simpl; rewrite <- ?app_assoc; reflexivity
            | reflexivity]).
Qed.

End Registration.

(* ------------------------------------------------------------------ *)
(** ** The properties of the specification *)

(** C1. For every component state and every behaviour of the services,
    [onRegister] returns, and it calls the auth service's [register]
    only when the password equals the confirmation: with equal passwords
    the calls to [register] it makes are exactly one, with the entered
    email, password and name; with different passwords it makes no call
    at all, whatever the other fields hold. *)
Theorem onRegister_registers_only_on_equal_passwords svc w :
  exists r w',
    onRegister svc w = Some (r, w')
    /\ if String.eqb (password (self w)) (passwordConfirm (self w))
       then map ev_call (filter isRegister (since w w'))
            = [CallRegister (email (self w)) (password (self w))
                 (name (self w))]
       else since w w' = [].
Proof.
  destruct (String.eqb (password (self w)) (passwordConfirm (self w))) eqn:E.
  - destruct (onRegister_match svc w E) as [r [w' [t [rest [H [S F]]]]]].
    exists r, w'. split; [exact H |].
    rewrite S. simpl. rewrite F. reflexivity.
  - exists (Normal tt), w. split.
    + apply onRegister_mismatch; exact E.
    + apply since_refl.
Qed.

(** C3. Whenever a call to the auth service ([register] or
    [getUsername]) throws during [onRegister], the method completes
    normally with the error string set to exactly the message of the
    thrown error and every other member of the component as it was, no
    navigation and no success notice are issued, and [register] has been
    called once (no retry). *)
Theorem onRegister_auth_failure svc w r w' ev e :
  onRegister svc w = Some (r, w') ->
  In ev (since w w') ->
  isAuthCall ev = true ->
  ev_threw ev = Some e ->
  r = Normal tt
  /\ self w' = set_error (message e) (self w)
  /\ filter isNavigate (since w w') = []
  /\ filter isShow (since w w') = []
  /\ List.length (filter isRegister (since w w')) = 1.
Proof.
  revert r w' ev e. unfold_onRegister.
  destruct (String.eqb (password (self w)) (passwordConfirm (self w))).
  2:{ intros ? ? ? ? H. inversion H; subst.
      rewrite since_refl. intros []. }
  repeat first
    [ step_oracle
    | match goal with
      | |- context [if negb ?b then _ else _] => destruct b; simpl
      end ];
    intros ? ? ? ? H; inversion H; subst; clear H;
    (erewrite since_app by (simpl; rewrite <- ?app_assoc; reflexivity));
    simpl; intros Hin Hauth Hthrew;
    repeat match goal with
           | H : _ \/ _ |- _ => destruct H as [H | H]
           | H : False |- _ => destruct H
           end; subst; simpl in *; try discriminate;
    inversion Hthrew; subst; auto.
Qed.

(** An instance of C3: the filled-in form, submitted to an auth service
    that rejects the registration. *)
Lemma onRegister_auth_failure_witness :
  let msg := "Firebase: Error (auth/email-already-in-use)." in
  let ev := mkEvent (CallRegister "ada@example.org" "secret1" "Ada Lovelace")
              (Some (mkError msg)) in
  let w' := mkWorld (set_error msg filledComponent) noContacts [ev] [] in
  onRegister (rejectingServices msg) filledWorld = Some (Normal tt, w')
  /\ (Normal tt = Normal tt
      /\ self w' = set_error (message (mkError msg)) (self filledWorld)
      /\ filter isNavigate (since filledWorld w') = []
      /\ filter isShow (since filledWorld w') = []
      /\ List.length (filter isRegister (since filledWorld w')) = 1).
Proof.
  intros msg ev w'. split; [reflexivity |].
  apply (onRegister_auth_failure (rejectingServices msg) filledWorld
           (Normal tt) w' ev (mkError msg)).
  - reflexivity.
  - simpl. left. reflexivity.
  - reflexivity.
  - reflexivity.
Defined.

(** C5. When the passwords are equal and [register] resolves,
    [onRegister] asks the contact service for a write exactly when no
    contact of its contact list (as the list stands once [register] has
    resolved) carries the entered email: in that case [addContact] is
    called once, with the entered name, the entered email and the
    placeholder phone; otherwise it is not called. *)
Theorem onRegister_contact_write svc w ext1 :
  String.eqb (password (self w)) (passwordConfirm (self w)) = true ->
  sv_register svc (email (self w)) (password (self w)) (name (self w)) (ext w)
  = (Normal tt, ext1) ->
  exists r w',
    onRegister svc w = Some (r, w')
    /\ map ev_call (filter isAddContact (since w w'))
       = if existsb (fun c => String.eqb (c_email c) (email (self w)))
              (contactList ext1)
         then []
         else [CallAddContact
                 (mkContact (name (self w)) (email (self w))
                    "Not existing yet")].
Proof.
  intros E R. unfold_onRegister. rewrite E, R. simpl.
  destruct (existsb _ (contactList ext1)); simpl;
    repeat step_oracle;
    do 2 eexists; (split; [reflexivity |]);
    (erewrite since_app by (simpl; rewrite <- ?app_assoc; reflexivity));
    reflexivity.
Qed.

(** An instance of C5: the filled-in form, an empty contact list and
    services that resolve. *)
Lemma onRegister_contact_write_witness :
  exists r w',
    onRegister quietServices filledWorld = Some (r, w')
    /\ map ev_call (filter isAddContact (since filledWorld w'))
       = [CallAddContact
            (mkContact "Ada Lovelace" "ada@example.org" "Not existing yet")].
Proof.
  apply (onRegister_contact_write quietServices filledWorld noContacts).
  - reflexivity.
  - reflexivity.
Defined.

(** C8. In the state of a fresh instance every field is invalid (each
    conjunct of the overall validity check fails, and name, email and
    password fail their own checks) while the empty password equals the
    empty confirmation; [onRegister] still calls the auth service's
    [register], with the three empty strings. *)
Theorem onRegister_ignores_field_validity svc e :
  let w := initialWorld e in
  ((2 <=? String.length (Js.trim (name (self w))))%nat = false
   /\ Regex.test emailRegex (email (self w)) = false
   /\ (6 <=? String.length (password (self w)))%nat = false
   /\ (6 <=? String.length (passwordConfirm (self w)))%nat = false
   /\ nameInvalid (self w) = true
   /\ emailInvalid (self w) = true
   /\ passwordInvalid (self w) = true)
  /\ exists r w',
       onRegister svc w = Some (r, w')
       /\ map ev_call (filter isRegister (since w w'))
          = [CallRegister "" "" ""].
Proof.
  intros w. split; [repeat split |].
  destruct (onRegister_match svc w eq_refl) as [r [w' [t [rest [H [S F]]]]]].
  exists r, w'. split; [exact H |].
  rewrite S. simpl. rewrite F. reflexivity.
Qed.

(** C9. When the password differs from the confirmation, [onRegister]
    completes normally and changes nothing: no service is called (the
    call log is as before), the services' state is as before, and every
    member of the component, the error string included, keeps its
    value. *)
Theorem onRegister_mismatch_is_noop svc w :
  password (self w) <> passwordConfirm (self w) ->
  onRegister svc w = Some (Normal tt, w).
Proof.
  intros N. apply onRegister_mismatch. apply String.eqb_neq. exact N.
Qed.

(** An instance of C9: a mistyped confirmation; the auth service, which
    would reject, is never asked. *)
Lemma onRegister_mismatch_is_noop_witness :
  onRegister (rejectingServices "unreachable") mistypedWorld
  = Some (Normal tt, mistypedWorld).
Proof.
  apply (onRegister_mismatch_is_noop (rejectingServices "unreachable")
           mistypedWorld).
  simpl. discriminate.
Defined.

(* ------------------------------------------------------------------ *)
(** ** Validation *)

Lemma length_zero_nil {A} (l : list A) : (List.length l =? 0)%nat = true <-> l = [].
Proof.
  destruct l; simpl; split; intros H; try reflexivity; discriminate.
Qed.

Lemma PrivacyRule_afterAuto w : PrivacyRule (self (afterAuto w)).
Proof.
  unfold PrivacyRule, afterAuto, with_self; simpl.
  unfold privacyFlag, isFormValid.
  rewrite !andb_true_iff, negb_true_iff, length_zero_nil, !Nat.leb_le.
  tauto.
Qed.

(** C4. After [validateForm] on any field name, and after
    [validatePrivacy], the show-privacy-error flag is true if and only
    if the invalid-field set is empty, the name has at least 2
    characters once trimmed, the email matches the pattern, password and
    confirmation have at least 6 characters each, and the privacy
    checkbox is unchecked. *)
Theorem privacy_flag_after_validation field w :
  (exists w', validateForm field w = Some (Normal tt, w')
              /\ PrivacyRule (self w'))
  /\ (exists w', validatePrivacy w = Some (Normal tt, w')
                 /\ PrivacyRule (self w')).
Proof.
  split.
  - exists (validated field w). split; [apply validateForm_eq |].
    unfold validated. apply PrivacyRule_afterAuto.
  - exists (afterAuto w). split; [reflexivity |].
    apply PrivacyRule_afterAuto.
Qed.

(** C2, as amended. After [validateForm('confirmPassword')], the name
    ['confirmPassword'] is in the invalid-field set if and only if the
    confirmation differs from the password; the length of the
    confirmation plays no part in this check. *)
Theorem confirmPassword_invalid_iff_differs w :
  exists w',
    validateForm "confirmPassword" w = Some (Normal tt, w')
    /\ (In "confirmPassword" (invalidFields (self w'))
        <-> passwordConfirm (self w) <> password (self w)).
Proof.
  exists (validated "confirmPassword" w).
  split; [apply validateForm_eq |].
  rewrite validated_confirmPassword. simpl.
  rewrite In_checkedFields. unfold confirmInvalid.
  rewrite negb_true_iff, String.eqb_neq. intuition congruence.
Qed.

(** C2, as stated, fails: with password and confirmation both ["abc"]
    the confirmation is shorter than 6 characters, yet after
    [validateForm('confirmPassword')] the name ['confirmPassword'] is
    not in the invalid-field set. *)
Lemma confirmPassword_short_not_flagged :
  let w := shortPasswordsWorld in
  exists w',
    validateForm "confirmPassword" w = Some (Normal tt, w')
    /\ ~ (In "confirmPassword" (invalidFields (self w'))
          <-> (String.length (passwordConfirm (self w)) < 6
               \/ passwordConfirm (self w) <> password (self w))).
Proof.
  intros w. exists (validated "confirmPassword" w).
  split; [apply validateForm_eq |].
  intros [_ H].
  assert (I : In "confirmPassword"
                (invalidFields (self (validated "confirmPassword" w))))
    by (apply H; left; simpl; lia).
  vm_compute in I. exact I.
Qed.

(** C6. Whatever the rest of the state, with the email
    ['user@domain.tld'] a call of [validateForm('email')] leaves
    ['email'] out of the invalid-field set and the email conjunct of
    [isFormValid] is true; with ['user@domain'] the call puts ['email']
    into the set, the conjunct is false and so is [isFormValid]. *)
Theorem email_pattern_examples w :
  let accepted := with_self (set_email "user@domain.tld") w in
  let rejected := with_self (set_email "user@domain") w in
  (exists w',
     validateForm "email" accepted = Some (Normal tt, w')
     /\ ~ In "email" (invalidFields (self w'))
     /\ Regex.test emailRegex (email (self accepted)) = true)
  /\ (exists w',
        validateForm "email" rejected = Some (Normal tt, w')
        /\ In "email" (invalidFields (self w'))
        /\ Regex.test emailRegex (email (self rejected)) = false
        /\ isFormValid (self rejected) = false).
Proof.
  intros accepted rejected. split.
  - exists (validated "email" accepted).
    split; [apply validateForm_eq |].
    split; [| reflexivity].
    rewrite validated_email. simpl. rewrite In_checkedFields.
    intros [[_ H] | [H _]]; [discriminate H | apply H; reflexivity].
  - exists (validated "email" rejected).
    split; [apply validateForm_eq |].
    split; [| split; [reflexivity |]].
    + rewrite validated_email. simpl. rewrite In_checkedFields.
      left. split; reflexivity.
    + unfold isFormValid.
      change (Regex.test emailRegex (email (self rejected))) with false.
      rewrite andb_false_r. reflexivity.
Qed.

(** C7. From a fresh instance, after every sequence of events (inputs,
    changes of the services' state, method calls), a field name is in
    [invalidFields] if and only if the most recent check recorded for
    that name reported it invalid; a name never checked is absent. *)
Theorem invalidFields_track_last_check svc ops e :
  exists w,
    run svc ops (initialWorld e) = Some w
    /\ forall f, In f (invalidFields (self w))
                 <-> lastCheck f (checks w) = Some true.
Proof.
  destruct (run_total svc ops (initialWorld e)) as [w H].
  exists w. split; [exact H |].
  apply (Reachable_Tracks svc).
  eapply run_Reachable; [apply reach_init | exact H].
Qed.

(** C10. From a fresh instance, after every sequence of events,
    [newUserData] still holds its four empty strings; a call of
    [validateForm('password')] made then performs the check of
    ['password'] and no other (the branch of [validatePassword] that
    re-validates the confirmation is not taken), and ['confirmPassword']
    is in the invalid-field set afterwards exactly if it was before. *)
Theorem newUserData_never_written svc ops e :
  exists w,
    run svc ops (initialWorld e) = Some w
    /\ newUserData (self w) = mkUserdata "" "" "" ""
    /\ exists w',
         validateForm "password" w = Some (Normal tt, w')
         /\ checks w'
            = checks w ++ [("password", passwordInvalid (self w))]
         /\ (In "confirmPassword" (invalidFields (self w'))
             <-> In "confirmPassword" (invalidFields (self w))).
Proof.
  destruct (run_total svc ops (initialWorld e)) as [w H].
  assert (R : Reachable svc w)
    by (eapply run_Reachable; [apply reach_init | exact H]).
  pose proof (Reachable_newUserData svc w R) as U.
  exists w. split; [exact H |]. split; [exact U |].
  exists (validated "password" w).
  split; [apply validateForm_eq |].
  rewrite validated_password. unfold afterPassword.
  rewrite newUserData_afterCheck, U. simpl.
  split; [reflexivity |].
  rewrite In_checkedFields.
  split; [intros [[D _] | [_ I]]; [discriminate D | exact I] |].
  intros I. right. split; [discriminate | exact I].
Qed.


(* ------------------------------------------------------------------ *)
(** ** More on the per-field validators *)

Lemma checkedFields_stable condition f inv :
  (In f inv <-> condition = true) -> checkedFields condition f inv = inv.
Proof.
  intros H. unfold checkedFields. destruct condition; simpl.
  - assert (I : In f inv) by (apply H; reflexivity).
    apply includes_In in I. rewrite I. reflexivity.
  - assert (N : ~ In f inv) by (intros I; apply H in I; discriminate).
    clear H. induction inv as [| g inv IH]; simpl; [reflexivity |].
    destruct (String.eqb g f) eqn:E; simpl.
    + apply String.eqb_eq in E. subst. elim N. left. reflexivity.
    + f_equal. apply IH. intros I. apply N. right. exact I.
Qed.

Lemma checkedFields_twice condition f inv :
  checkedFields condition f (checkedFields condition f inv)
  = checkedFields condition f inv.
Proof.
  apply checkedFields_stable. rewrite In_checkedFields.
  split; [intros [[_ H] | [N _]]; [exact H | elim N; reflexivity] |].
  intros H. left. split; [reflexivity | exact H].
Qed.

Lemma checkedFields_other condition f inv g :
  g <> f -> (In g (checkedFields condition f inv) <-> In g inv).
Proof.
  intros N. rewrite In_checkedFields. intuition congruence.
Qed.

(** Every validation call changes two members of the component at most:
    the invalid-field list and the show-privacy-error flag. *)
Lemma validated_self field w :
  exists l b,
    self (validated field w)
    = set_showPrivacyError b (set_invalidFields l (self w)).
Proof.
  unfold validated, afterPassword.
  repeat match goal with
         | |- context [if ?b then _ else _] => destruct b
         end;
    simpl; eexists; eexists; reflexivity.
Qed.

Lemma validated_unknown field w :
  ~ In field knownFields -> validated field w = afterAuto w.
Proof.
  intros N. unfold validated.
  assert (E : forall g, In g knownFields -> String.eqb field g = false).
  { intros g I. apply String.eqb_neq. intros ->. exact (N I). }
  rewrite !E by (simpl; auto 6). reflexivity.
Qed.

Lemma truthy_false_empty s : Js.truthy s = false -> s = "".
Proof. destruct s; [reflexivity | discriminate]. Qed.

(** X1. After [validateForm('name')] the name ['name'] is in the
    invalid-field list exactly when the name has fewer than 2 characters
    once trimmed (the empty name included), which is exactly when the
    name conjunct of [isFormValid] fails; every other name is listed as
    before. *)
Theorem name_flagged_iff_short w :
  exists w',
    validateForm "name" w = Some (Normal tt, w')
    /\ (In "name" (invalidFields (self w'))
        <-> String.length (Js.trim (name (self w))) < 2)
    /\ (In "name" (invalidFields (self w'))
        <-> (2 <=? String.length (Js.trim (name (self w))))%nat = false)
    /\ forall g, g <> "name" ->
         (In g (invalidFields (self w')) <-> In g (invalidFields (self w))).
Proof.
  exists (validated "name" w). split; [apply validateForm_eq |].
  rewrite validated_name. simpl.
  assert (C : nameInvalid (self w) = true
              <-> String.length (Js.trim (name (self w))) < 2).
  { unfold nameInvalid. rewrite orb_true_iff, negb_true_iff, Nat.ltb_lt.
    split; [intros [T | L]; [| exact L] | auto].
    apply truthy_false_empty in T. rewrite T. simpl. lia. }
  assert (M : In "name"
                (checkedFields (nameInvalid (self w)) "name"
                   (invalidFields (self w)))
              <-> String.length (Js.trim (name (self w))) < 2).
  { rewrite In_checkedFields, <- C. intuition congruence. }
  split; [exact M |]. split.
  - rewrite M.
    destruct (String.length (Js.trim (name (self w)))) as [| [| n]];
      split; intros H; first [reflexivity | lia | discriminate H].
  - intros g N. apply checkedFields_other; exact N.
Qed.

(** X2. After [validateForm('password')], in every state (also one in
    which [newUserData.confirmPassword] is set, so that the confirmation
    is re-validated), ['password'] is in the invalid-field list exactly
    when the password has fewer than 6 characters; ['name'] and
    ['email'] are listed as before. *)
Theorem password_flagged_iff_short w :
  exists w',
    validateForm "password" w = Some (Normal tt, w')
    /\ (In "password" (invalidFields (self w'))
        <-> String.length (password (self w)) < 6)
    /\ forall g, g <> "password" -> g <> "confirmPassword" ->
         (In g (invalidFields (self w')) <-> In g (invalidFields (self w))).
Proof.
  exists (validated "password" w). split; [apply validateForm_eq |].
  rewrite validated_password.
  assert (C : passwordInvalid (self w) = true
              <-> String.length (password (self w)) < 6).
  { unfold passwordInvalid. rewrite orb_true_iff, negb_true_iff, Nat.ltb_lt.
    split; [intros [T | L]; [| exact L] | auto].
    apply truthy_false_empty in T. rewrite T. simpl. lia. }
  unfold afterPassword.
  destruct (Js.truthy _); simpl; split.
  - rewrite checkedFields_other by discriminate.
    rewrite In_checkedFields, <- C. intuition congruence.
  - intros g N1 N2. rewrite !checkedFields_other by assumption. reflexivity.
  - rewrite In_checkedFields, <- C. intuition congruence.
  - intros g N1 N2. rewrite checkedFields_other by assumption. reflexivity.
Qed.

(** X3. A field name other than the four [validateForm] knows is not an
    error: the call performs no check and does exactly what
    [validatePrivacy] does. *)
Theorem validateForm_unknown_field field w :
  ~ In field knownFields ->
  validateForm field w = validatePrivacy w.
Proof.
  intros N. rewrite validateForm_eq, (validated_unknown _ _ N). reflexivity.
Qed.

(** An instance of X3: the contact's phone is no field of this form. *)
Lemma validateForm_unknown_field_witness :
  validateForm "phone" filledWorld = validatePrivacy filledWorld.
Proof.
  apply (validateForm_unknown_field "phone" filledWorld).
  simpl. intros [H | [H | [H | [H | []]]]]; discriminate H.
Defined.

Lemma validated_settled field w :
  self (validated field w)
  = settled (fieldsAfter field (self w) (invalidFields (self w))) (self w).
Proof.
  unfold validated, fieldsAfter, afterPassword.
  destruct (String.eqb field "name"), (String.eqb field "email"),
    (String.eqb field "password");
    cbv zeta; rewrite ?newUserData_afterCheck;
    try destruct (Js.truthy (ud_confirmPassword (newUserData (self w))));
    destruct (String.eqb field "confirmPassword");
    try reflexivity;
    unfold settled; rewrite set_invalidFields_same; reflexivity.
Qed.

Lemma fieldsAfter_settled field l c inv :
  fieldsAfter field (settled l c) inv = fieldsAfter field c inv.
Proof. reflexivity. Qed.

Lemma settled_settled l' l c : settled l' (settled l c) = settled l' c.
Proof. reflexivity. Qed.

Lemma invalidFields_settled l c : invalidFields (settled l c) = l.
Proof. reflexivity. Qed.

Lemma fieldsAfter_twice field c inv :
  fieldsAfter field c (fieldsAfter field c inv) = fieldsAfter field c inv.
Proof.
  destruct (in_dec string_dec field knownFields) as [I | N].
  - simpl in I.
    destruct I as [<- | [<- | [<- | [<- | []]]]]; unfold fieldsAfter;
      simpl String.eqb; cbv iota zeta;
      try apply checkedFields_twice.
    destruct (Js.truthy _); [| apply checkedFields_twice].
    set (c1 := passwordInvalid c). set (c2 := confirmInvalid c).
    set (L := checkedFields c2 "confirmPassword"
                (checkedFields c1 "password" inv)).
    assert (E1 : checkedFields c1 "password" L = L).
    { apply checkedFields_stable. unfold L.
      rewrite checkedFields_other by discriminate.
      rewrite In_checkedFields. intuition congruence. }
    rewrite E1. apply checkedFields_twice.
  - assert (E : forall g, In g knownFields -> String.eqb field g = false).
    { intros g I. apply String.eqb_neq. intros ->. exact (N I). }
    unfold fieldsAfter. rewrite !E by (simpl; auto 6). reflexivity.
Qed.

(** X4. Validating the same field twice in a row, with no input in
    between, leaves the component as the first call left it. *)
Theorem validateForm_idempotent field w :
  exists w1 w2,
    validateForm field w = Some (Normal tt, w1)
    /\ validateForm field w1 = Some (Normal tt, w2)
    /\ self w2 = self w1.
Proof.
  exists (validated field w), (validated field (validated field w)).
  split; [apply validateForm_eq |]. split; [apply validateForm_eq |].
  rewrite (validated_settled field (validated field w)).
  rewrite (validated_settled field w).
  rewrite fieldsAfter_settled, invalidFields_settled, settled_settled.
  rewrite fieldsAfter_twice. reflexivity.
Qed.


(* ------------------------------------------------------------------ *)
(** ** More on registration and navigation *)

Ltac split_run :=
  repeat first
    [ step_oracle
    | match goal with
      | |- context [if negb ?b then _ else _] => destruct b; simpl
      end ].

Ltac log_since :=
  erewrite since_app by (simpl; rewrite <- ?app_assoc; reflexivity).



(** X7. With services whose router and feedback service neither throw
    nor touch the other services, a registration with equal passwords in
    which nothing throws ends with [authService.UserLoggedIn] holding
    what [getUsername] returned for the entered email, and with the
    component untouched: in particular an error message left by an
    earlier failed attempt is still there. *)
Theorem onRegister_success svc w :
  calmUi svc ->
  exists w',
    onRegister svc w = Some (Normal tt, w')
    /\ (String.eqb (password (self w)) (passwordConfirm (self w)) = true ->
        firstThrow (since w w') = None ->
        self w' = self w
        /\ exists e0 e1 u,
             sv_getUsername svc (email (self w)) e0 = (Normal u, e1)
             /\ ext w' = mkExt (contactList e1) u).
Proof.
  intros [Hn Hs]. unfold_onRegister.
  destruct (String.eqb (password (self w)) (passwordConfirm (self w))).
  - repeat first
      [ rewrite Hn | rewrite Hs
      | match goal with
        | |- context [sv_register ?s ?a ?b ?c ?e] =>
            destruct (sv_register s a b c e) as [[[] | ?] ?] eqn:?
        | |- context [sv_addContact ?s ?c ?e] =>
            destruct (sv_addContact s c e) as [[[] | ?] ?] eqn:?
        | |- context [sv_getUsername ?s ?a ?e] =>
            destruct (sv_getUsername s a e) as [[? | ?] ?] eqn:?
        | |- context [if negb ?b then _ else _] => destruct b
        end; simpl ];
      eexists; (split; [reflexivity |]); log_since; intros _ H;
      simpl in H; try discriminate H;
      (split; [reflexivity | eauto]).
  - exists w. split; [reflexivity |]. intros H; discriminate H.
Qed.

(** An instance of X7: the filled-in form with services that resolve. *)
Lemma onRegister_success_witness :
  exists w',
    onRegister quietServices filledWorld = Some (Normal tt, w')
    /\ (String.eqb (password (self filledWorld))
          (passwordConfirm (self filledWorld)) = true ->
        firstThrow (since filledWorld w') = None ->
        self w' = self filledWorld
        /\ exists e0 e1 u,
             sv_getUsername quietServices (email (self filledWorld)) e0
             = (Normal u, e1)
             /\ ext w' = mkExt (contactList e1) u).
Proof.
  apply (onRegister_success quietServices filledWorld).
  split; intros; reflexivity.
Defined.

(** X8. [onBackClick] writes the flag ['skipLoginAnimation' = 'true'] to
    the browser storage and then navigates to ['/'], never touching the
    component.  It has no handler of its own: when the storage write
    throws, the error leaves the method and no navigation is issued. *)
Theorem onBackClick_storage_then_navigation svc w :
  exists r w',
    onBackClick svc w = Some (r, w')
    /\ self w' = self w
    /\ match fst (sv_setItem svc "skipLoginAnimation" "true" (ext w)) with
       | Throw e =>
           r = Throw e
           /\ map ev_call (since w w')
              = [CallSetItem "skipLoginAnimation" "true"]
       | Normal _ =>
           map ev_call (since w w')
           = [CallSetItem "skipLoginAnimation" "true"; CallNavigate ["/"]]
       end.
Proof.
  unfold onBackClick, setItem, navigate, bind, extcall; simpl.
  destruct (sv_setItem svc "skipLoginAnimation" "true" (ext w))
    as [[[] | e] e1]; simpl.
  - destruct (sv_navigate svc ["/"] e1) as [r e2].
    do 2 eexists. split; [reflexivity |]. split; [reflexivity |].
    log_since. reflexivity.
  - do 2 eexists. split; [reflexivity |]. split; [reflexivity |].
    log_since. split; reflexivity.
Qed.


(* ------------------------------------------------------------------ *)
(** ** More invariants of the component *)

Lemma NoDup_checkedFields condition f inv :
  NoDup inv -> NoDup (checkedFields condition f inv).
Proof.
  intros N. unfold checkedFields.
  destruct condition; simpl.
  - destruct (Js.includes inv f) eqn:E; simpl; [exact N |].
    assert (X : ~ In f inv).
    { intros I. apply includes_In in I. congruence. }
    clear E. induction N as [| g l G N IH]; simpl.
    + constructor; [intros [] | constructor].
    + constructor.
      * rewrite in_app_iff. simpl. intros [I | [-> | []]]; [auto |].
        apply X. left. reflexivity.
      * apply IH. intros I. apply X. right. exact I.
  - apply NoDup_filter. exact N.
Qed.

Lemma Known_afterCheck condition f w :
  In f knownFields -> Known w -> Known (afterCheck condition f w).
Proof.
  intros I [S N]. split; simpl.
  - intros g G. apply In_checkedFields in G.
    destruct G as [[-> _] | [_ G]]; [exact I | apply S; exact G].
  - apply NoDup_checkedFields; exact N.
Qed.

Lemma Known_validated field w : Known w -> Known (validated field w).
Proof.
  intros K. unfold validated, afterPassword.
  assert (A : forall v, Known v -> Known (afterAuto v)) by (intros v H; exact H).
  apply A.
  repeat match goal with
         | |- Known (if ?b then _ else _) => destruct b
         | |- Known (afterAuto _) => apply A
         | |- Known (afterCheck _ _ _) =>
             apply Known_afterCheck; [simpl; auto 6 |]
         end; exact K.
Qed.

Lemma Reachable_Known svc w : Reachable svc w -> Known w.
Proof.
  induction 1 as [e | w op r w' R IH P].
  - split; simpl; [intros g [] | constructor].
  - destruct (perform_core _ _ _ _ _ P) as [E | [field [_ ->]]].
    + unfold core in E. injection E as E _ _.
      unfold Known. rewrite E. exact IH.
    + apply Known_validated; exact IH.
Qed.

(** X9. From a fresh instance, after every sequence of events, the
    invalid-field list holds no name twice and no name other than
    ['name'], ['email'], ['password'] and ['confirmPassword']; so it
    never has more than four entries. *)
Theorem invalidFields_known_and_distinct svc ops e :
  exists w,
    run svc ops (initialWorld e) = Some w
    /\ NoDup (invalidFields (self w))
    /\ incl (invalidFields (self w)) knownFields
    /\ List.length (invalidFields (self w)) <= 4.
Proof.
  destruct (run_total svc ops (initialWorld e)) as [w H].
  assert (K : Known w).
  { apply (Reachable_Known svc).
    eapply run_Reachable; [apply reach_init | exact H]. }
  destruct K as [S N].
  exists w. split; [exact H |]. split; [exact N |]. split; [exact S |].
  apply (NoDup_incl_length N S).
Qed.

(** What each event does to the component, as far as the visibility
    flags are concerned. *)
Lemma onRegister_self svc w r w' :
  onRegister svc w = Some (r, w') ->
  self w' = self w \/ exists msg, self w' = set_error msg (self w).
Proof.
  revert r w'. unfold_onRegister.
  destruct (String.eqb (password (self w)) (passwordConfirm (self w)));
    split_run; intros ? ? H; inversion H; subst; simpl; eauto.
Qed.

Lemma extcall_self {A} c (oracle : Ext -> Completion A * Ext) w r w' :
  extcall c oracle w = Some (r, w') -> self w' = self w.
Proof.
  unfold extcall. destruct (oracle (ext w)). intros H. inversion H.
  reflexivity.
Qed.

Lemma onBackClick_self svc w r w' :
  onBackClick svc w = Some (r, w') -> self w' = self w.
Proof.
  unfold onBackClick, bind, setItem, navigate.
  destruct (extcall _ _ w) as [[[[] | e] w1] |] eqn:E; intros H;
    try discriminate.
  - rewrite (extcall_self _ _ _ _ _ H). eapply extcall_self; eauto.
  - inversion H; subst. eapply extcall_self; eauto.
Qed.

Lemma perform_HiddenUnlessEntered svc op w r w' :
  perform svc op w = Some (r, w') ->
  HiddenUnlessEntered (self w) -> HiddenUnlessEntered (self w').
Proof.
  unfold HiddenUnlessEntered.
  destruct op; simpl; intros P I;
    try (inversion P; subst; simpl; exact I).
  - destruct field; unfold onPasswordInput, bind, this, assign, ret in P;
      simpl in P;
      match type of P with
      | context [(0 <? ?n)%nat] => destruct (0 <? n)%nat
      end; simpl in P; inversion P; subst; simpl;
      (split; [try (intros; reflexivity); try discriminate; tauto
              | try (intros; reflexivity); try discriminate; tauto]).
  - destruct field; unfold togglePasswordVisibility, bind, this, assign, ret
      in P; simpl in P;
      [destruct (passwordEntered (self w)) eqn:E
      | destruct (confirmPasswordEntered (self w)) eqn:E];
      inversion P; subst; simpl; rewrite ?E; tauto.
  - destruct (onRegister_self _ _ _ _ P) as [-> | [msg ->]]; exact I.
  - rewrite validateForm_eq in P. inversion P; subst.
    destruct (validated_self field w) as [l [b ->]]. exact I.
  - unfold goToAnotherPage, navigate in P.
    rewrite (extcall_self _ _ _ _ _ P). exact I.
  - rewrite (onBackClick_self _ _ _ _ P). exact I.
Qed.

Lemma Reachable_HiddenUnlessEntered svc w :
  Reachable svc w -> HiddenUnlessEntered (self w).
Proof.
  induction 1 as [e | w op r w' R IH P].
  - split; discriminate.
  - eapply perform_HiddenUnlessEntered; eauto.
Qed.

(** X10. From a fresh instance, after every sequence of events, a
    password field is shown in clear only if its entered flag is set:
    [passwordVisible] implies [passwordEntered], and
    [confirmPasswordVisible] implies [confirmPasswordEntered]. *)
Theorem visible_only_if_entered svc ops e :
  exists w,
    run svc ops (initialWorld e) = Some w
    /\ forall f, fieldVisible f (self w) = true
                 -> fieldEntered f (self w) = true.
Proof.
  destruct (run_total svc ops (initialWorld e)) as [w H].
  exists w. split; [exact H |].
  assert (I : HiddenUnlessEntered (self w)).
  { apply (Reachable_HiddenUnlessEntered svc).
    eapply run_Reachable; [apply reach_init | exact H]. }
  destruct I as [I1 I2]. intros []; assumption.
Qed.

(** X11. Toggling the visibility of a field twice restores the world
    exactly, whether or not the field has been entered. *)
Theorem togglePasswordVisibility_twice f w :
  exists w1,
    togglePasswordVisibility f w = Some (Normal tt, w1)
    /\ togglePasswordVisibility f w1 = Some (Normal tt, w).
Proof.
  destruct w as [c x cs ks]. destruct c.
  destruct f; unfold togglePasswordVisibility, bind, this, assign, ret;
    simpl;
    [destruct passwordEntered0 | destruct confirmPasswordEntered0];
    eexists; (split; [reflexivity |]); simpl;
    rewrite ?negb_involutive; reflexivity.
Qed.

Lemma run_toggles_hidden svc f n : forall w,
  fieldEntered f (self w) = false ->
  fieldVisible f (self w) = false ->
  run svc (repeat (TogglePasswordVisibility f) n) w = Some w.
Proof.
  induction n as [| n IH]; intros w E V; simpl; [reflexivity |].
  destruct f; unfold togglePasswordVisibility, bind, this, ret; simpl in *;
    rewrite E; apply IH; assumption.
Qed.

(** X12. Once a password field is empty, [onPasswordInput] hides it and
    the visibility toggle is dead: after [onPasswordInput(field)] on an
    empty field, any number of [togglePasswordVisibility(field)] calls
    leave the field hidden. *)
Theorem empty_field_stays_hidden svc f n w :
  fieldValue f (self w) = "" ->
  exists w',
    run svc (OnPasswordInput f :: repeat (TogglePasswordVisibility f) n) w
    = Some w'
    /\ fieldVisible f (self w') = false
    /\ fieldEntered f (self w') = false.
Proof.
  intros E. simpl.
  destruct f; simpl in E; unfold onPasswordInput, bind, this, assign, ret;
    simpl; rewrite E; simpl;
    (eexists; split;
     [apply run_toggles_hidden; reflexivity | split; reflexivity]).
Qed.

(** An instance of X12: a fresh instance, three clicks on the eye. *)
Lemma empty_field_stays_hidden_witness :
  exists w',
    run quietServices
      (OnPasswordInput FieldPassword
       :: repeat (TogglePasswordVisibility FieldPassword) 3)
      (initialWorld noContacts)
    = Some w'
    /\ fieldVisible FieldPassword (self w') = false
    /\ fieldEntered FieldPassword (self w') = false.
Proof.
  apply (empty_field_stays_hidden quietServices FieldPassword 3
           (initialWorld noContacts)).
  reflexivity.
Defined.


(* ------------------------------------------------------------------ *)
(** ** The email pattern *)

Lemma append_nil_r (s : string) : (s ++ "")%string = s.
Proof. induction s; simpl; congruence. Qed.

Lemma append_assoc (s1 s2 s3 : string) :
  ((s1 ++ s2) ++ s3)%string = (s1 ++ (s2 ++ s3))%string.
Proof. induction s1; simpl; congruence. Qed.

Lemma length_append (s1 s2 : string) :
  String.length (s1 ++ s2) = String.length s1 + String.length s2.
Proof. induction s1; simpl; congruence. Qed.

Lemma allChars_append p s1 s2 :
  allChars p (s1 ++ s2) = allChars p s1 && allChars p s2.
Proof.
  induction s1; simpl; [reflexivity |].
  rewrite IHs1, andb_assoc. reflexivity.
Qed.

Lemma allChars_impl (p q : ascii -> bool) s :
  (forall c, p c = true -> q c = true) ->
  allChars p s = true -> allChars q s = true.
Proof.
  intros I. induction s; simpl; [reflexivity |].
  rewrite !andb_true_iff. intros [H1 H2]. auto.
Qed.

Lemma toLowerCase_append s1 s2 :
  Js.toLowerCase (s1 ++ s2)
  = (Js.toLowerCase s1 ++ Js.toLowerCase s2)%string.
Proof. induction s1; simpl; congruence. Qed.

Lemma length_toLowerCase s :
  String.length (Js.toLowerCase s) = String.length s.
Proof. induction s; simpl; congruence. Qed.

Lemma allChars_toLowerCase p s :
  (forall c, p c = true -> p (Js.lowerChar c) = true) ->
  allChars p s = true -> allChars p (Js.toLowerCase s) = true.
Proof.
  intros I. induction s; simpl; [reflexivity |].
  rewrite !andb_true_iff. intros [H1 H2]. auto.
Qed.

(** Facts about single code units, checked on all 256 of them. *)
Ltac each_char c :=
  destruct c as [[] [] [] [] [] [] [] []]; vm_compute;
  try reflexivity; try discriminate;
  try (intros; first [reflexivity | discriminate]).

Lemma at_class c : Regex.inClass [("@","@")]%char c = true -> c = "@"%char.
Proof. each_char c. Qed.

Lemma dot_class c : Regex.inClass [(".",".")]%char c = true -> c = "."%char.
Proof. each_char c. Qed.

Lemma domain_local c :
  Regex.inClass domainChars c = true -> Regex.inClass localChars c = true.
Proof. each_char c. Qed.

Lemma alpha_local c :
  Regex.inClass alphaChars c = true -> Regex.inClass localChars c = true.
Proof. each_char c. Qed.

Lemma lower_local c :
  Regex.inClass localChars c = true ->
  Regex.inClass localChars (Js.lowerChar c) = true.
Proof. each_char c. Qed.

Lemma lower_domain c :
  Regex.inClass domainChars c = true ->
  Regex.inClass domainChars (Js.lowerChar c) = true.
Proof. each_char c. Qed.

Lemma lower_alpha c :
  Regex.inClass alphaChars c = true ->
  Regex.inClass alphaChars (Js.lowerChar c) = true.
Proof. each_char c. Qed.

Lemma emailChar_not_space c :
  emailChar c = true -> Js.isWhiteSpace c = false.
Proof. each_char c. Qed.

Lemma local_emailChar c :
  Regex.inClass localChars c = true -> emailChar c = true.
Proof. unfold emailChar. intros ->. reflexivity. Qed.

(** Inversion of [Matches] on the shapes the pattern is made of. *)
Lemma Matches_Class rs s :
  Regex.Matches (Regex.Class rs) s
  <-> exists c, s = String c "" /\ Regex.inClass rs c = true.
Proof.
  split.
  - intros H. inversion H; subst. eauto.
  - intros [c [-> H]]. constructor; exact H.
Qed.

Lemma Matches_Cat r1 r2 s :
  Regex.Matches (Regex.Cat r1 r2) s
  <-> exists s1 s2, s = (s1 ++ s2)%string
                    /\ Regex.Matches r1 s1 /\ Regex.Matches r2 s2.
Proof.
  split.
  - intros H. inversion H; subst. eauto.
  - intros [s1 [s2 [-> [H1 H2]]]]. constructor; assumption.
Qed.

Lemma Matches_star_class rs s :
  Regex.Matches (Regex.Star (Regex.Class rs)) s
  <-> allChars (Regex.inClass rs) s = true.
Proof.
  split.
  - intros H. remember (Regex.Star (Regex.Class rs)) as r eqn:E.
    induction H; try discriminate E.
    + reflexivity.
    + injection E as ->.
      apply Matches_Class in H. destruct H as [a [A I]].
      injection A as -> ->. simpl. rewrite I. simpl. auto.
  - induction s as [| c s IH]; simpl; intros H.
    + constructor.
    + apply andb_true_iff in H. destruct H as [H1 H2].
      change (String c s) with (String c "" ++ s)%string.
      constructor; [constructor; exact H1 | auto].
Qed.

Lemma Matches_plus_class rs s :
  Regex.Matches (Regex.plus (Regex.Class rs)) s
  <-> s <> "" /\ allChars (Regex.inClass rs) s = true.
Proof.
  unfold Regex.plus. rewrite Matches_Cat. split.
  - intros [s1 [s2 [-> [H1 H2]]]].
    apply Matches_Class in H1. destruct H1 as [c [-> I]].
    apply Matches_star_class in H2. simpl. rewrite I, H2.
    split; [discriminate | reflexivity].
  - intros [N H]. destruct s as [| c s]; [elim N; reflexivity |].
    simpl in H. apply andb_true_iff in H. destruct H as [H1 H2].
    exists (String c ""), s. split; [reflexivity |].
    split; [constructor; exact H1 | apply Matches_star_class; exact H2].
Qed.

Lemma Matches_atLeast2_class rs s :
  Regex.Matches (Regex.atLeast 2 (Regex.Class rs)) s
  <-> 2 <= String.length s /\ allChars (Regex.inClass rs) s = true.
Proof.
  simpl Regex.atLeast. rewrite Matches_Cat. split.
  - intros [s1 [s2 [-> [H1 H2]]]].
    apply Matches_Class in H1. destruct H1 as [c [-> I]].
    apply (Matches_plus_class rs) in H2. destruct H2 as [N A].
    simpl. rewrite I, A. split; [| reflexivity].
    destruct s2; [elim N; reflexivity | simpl; lia].
  - intros [L H]. destruct s as [| c s]; [simpl in L; lia |].
    simpl in H. apply andb_true_iff in H. destruct H as [H1 H2].
    exists (String c ""), s. split; [reflexivity |].
    split; [constructor; exact H1 |].
    apply (Matches_plus_class rs). split; [| exact H2].
    destruct s; [simpl in L; lia | discriminate].
Qed.

Lemma emailRegex_Matches s :
  Regex.Matches emailRegex s
  <-> exists l d t,
        s = (l ++ "@" ++ d ++ "." ++ t)%string
        /\ l <> "" /\ allChars (Regex.inClass localChars) l = true
        /\ d <> "" /\ allChars (Regex.inClass domainChars) d = true
        /\ 2 <= String.length t
        /\ allChars (Regex.inClass alphaChars) t = true.
Proof.
  change emailRegex with
    (Regex.Cat (Regex.plus (Regex.Class localChars))
       (Regex.Cat (Regex.Class [("@","@")]%char)
          (Regex.Cat (Regex.plus (Regex.Class domainChars))
             (Regex.Cat (Regex.Class [(".",".")]%char)
                (Regex.atLeast 2 (Regex.Class alphaChars)))))).
  split.
  - intros H.
    apply Matches_Cat in H. destruct H as [l [s1 [-> [Hl H]]]].
    apply Matches_Cat in H. destruct H as [a [s2 [-> [Ha H]]]].
    apply Matches_Cat in H. destruct H as [d [s3 [-> [Hd H]]]].
    apply Matches_Cat in H. destruct H as [p [t [-> [Hp Ht]]]].
    apply Matches_plus_class in Hl. destruct Hl as [Nl Al].
    apply Matches_plus_class in Hd. destruct Hd as [Nd Ad].
    apply Matches_atLeast2_class in Ht. destruct Ht as [Lt At].
    apply Matches_Class in Ha. destruct Ha as [c1 [-> I1]].
    apply Matches_Class in Hp. destruct Hp as [c2 [-> I2]].
    apply at_class in I1. apply dot_class in I2. subst.
    exists l, d, t. auto 10.
  - intros [l [d [t [-> [Nl [Al [Nd [Ad [Lt At]]]]]]]]].
    apply Matches_Cat. exists l, ("@" ++ d ++ "." ++ t)%string.
    split; [reflexivity |]. split; [apply Matches_plus_class; auto |].
    apply Matches_Cat. exists "@", (d ++ "." ++ t)%string.
    split; [reflexivity |]. split; [constructor; reflexivity |].
    apply Matches_Cat. exists d, ("." ++ t)%string.
    split; [reflexivity |]. split; [apply Matches_plus_class; auto |].
    apply Matches_Cat. exists ".", t.
    split; [reflexivity |]. split; [constructor; reflexivity |].
    apply Matches_atLeast2_class; auto.
Qed.

(** X13. The email pattern accepts exactly the strings of the form
    local@domain.tld where the local part is one or more characters out
    of letters, digits and [._%+-], the domain is one or more characters
    out of letters, digits, dot and hyphen, and the last label is two or
    more letters. *)
Theorem emailRegex_accepts s :
  Regex.test emailRegex s = true
  <-> exists l d t,
        s = (l ++ "@" ++ d ++ "." ++ t)%string
        /\ l <> "" /\ allChars (Regex.inClass localChars) l = true
        /\ d <> "" /\ allChars (Regex.inClass domainChars) d = true
        /\ 2 <= String.length t
        /\ allChars (Regex.inClass alphaChars) t = true.
Proof.
  rewrite RegexFacts.test_spec. apply emailRegex_Matches.
Qed.

(** What an accepted email looks like to [trim] and [toLowerCase]. *)
Lemma accepted_chars e :
  Regex.test emailRegex e = true ->
  e <> "" /\ allChars emailChar e = true.
Proof.
  rewrite RegexFacts.test_spec, emailRegex_Matches.
  intros [l [d [t [-> [Nl [Al [Nd [Ad [Lt At]]]]]]]]]. split.
  - destruct l; [elim Nl; reflexivity | discriminate].
  - rewrite !allChars_append.
    rewrite (allChars_impl _ _ l local_emailChar Al).
    rewrite (allChars_impl _ _ d
               (fun c H => local_emailChar c (domain_local c H)) Ad).
    rewrite (allChars_impl _ _ t
               (fun c H => local_emailChar c (alpha_local c H)) At).
    reflexivity.
Qed.

Lemma accepted_lower e :
  Regex.test emailRegex e = true ->
  Regex.test emailRegex (Js.toLowerCase e) = true.
Proof.
  rewrite !RegexFacts.test_spec, !emailRegex_Matches.
  intros [l [d [t [-> [Nl [Al [Nd [Ad [Lt At]]]]]]]]].
  exists (Js.toLowerCase l), (Js.toLowerCase d), (Js.toLowerCase t).
  rewrite !toLowerCase_append, length_toLowerCase.
  split; [reflexivity |].
  split; [destruct l; [elim Nl; reflexivity | discriminate] |].
  split; [apply allChars_toLowerCase; [apply lower_local | exact Al] |].
  split; [destruct d; [elim Nd; reflexivity | discriminate] |].
  split; [apply allChars_toLowerCase; [apply lower_domain | exact Ad] |].
  split; [exact Lt |].
  apply allChars_toLowerCase; [apply lower_alpha | exact At].
Qed.

Lemma trimStart_spaces ws x :
  allChars Js.isWhiteSpace ws = true ->
  Js.trimStart (ws ++ x) = Js.trimStart x.
Proof.
  induction ws as [| c ws IH]; simpl; [reflexivity |].
  intros H. apply andb_true_iff in H. destruct H as [-> H]. auto.
Qed.

Lemma trimEnd_spaces_only ws :
  allChars Js.isWhiteSpace ws = true -> Js.trimEnd ws = "".
Proof.
  induction ws as [| c ws IH]; simpl; [reflexivity |].
  intros H. apply andb_true_iff in H. destruct H as [-> H].
  rewrite IH by exact H. reflexivity.
Qed.

Lemma trimEnd_spaces x ws :
  allChars Js.isWhiteSpace ws = true ->
  Js.trimEnd (x ++ ws) = Js.trimEnd x.
Proof.
  intros H. induction x as [| c x IH]; simpl.
  - apply trimEnd_spaces_only; exact H.
  - rewrite IH. reflexivity.
Qed.

Lemma trimEnd_clean x :
  allChars emailChar x = true -> Js.trimEnd x = x.
Proof.
  induction x as [| c x IH]; simpl; [reflexivity |].
  intros H. apply andb_true_iff in H. destruct H as [H1 H2].
  rewrite IH by exact H2.
  destruct x; [| reflexivity].
  rewrite (emailChar_not_space _ H1). reflexivity.
Qed.

Lemma trimStart_clean x y :
  x <> "" -> allChars emailChar x = true ->
  Js.trimStart (x ++ y) = (x ++ y)%string.
Proof.
  destruct x as [| c x]; [intros N; elim N; reflexivity |].
  intros _ H. simpl in H. apply andb_true_iff in H. destruct H as [H1 _].
  simpl. rewrite (emailChar_not_space _ H1). reflexivity.
Qed.

Lemma trim_padded ws1 e ws2 :
  Regex.test emailRegex e = true ->
  allChars Js.isWhiteSpace ws1 = true ->
  allChars Js.isWhiteSpace ws2 = true ->
  Js.trim (ws1 ++ e ++ ws2) = e.
Proof.
  intros A W1 W2. destruct (accepted_chars e A) as [N C].
  unfold Js.trim. rewrite (trimStart_spaces _ _ W1).
  rewrite (trimStart_clean _ _ N C), (trimEnd_spaces _ _ W2).
  apply trimEnd_clean; exact C.
Qed.

Lemma spaces_not_emailChars ws :
  allChars Js.isWhiteSpace ws = true -> allChars emailChar ws = true ->
  ws = "".
Proof.
  destruct ws as [| c ws]; [reflexivity |]. simpl.
  rewrite !andb_true_iff. intros [W _] [E _].
  rewrite (emailChar_not_space _ E) in W. discriminate W.
Qed.

(** The per-field check accepts what the overall check accepts, also
    when padded with white space. *)
Lemma emailInvalid_padded ws1 e ws2 c :
  Regex.test emailRegex e = true ->
  allChars Js.isWhiteSpace ws1 = true ->
  allChars Js.isWhiteSpace ws2 = true ->
  emailInvalid (set_email (ws1 ++ e ++ ws2) c) = false.
Proof.
  intros A W1 W2. unfold emailInvalid. simpl email.
  rewrite (trim_padded _ _ _ A W1 W2), (accepted_lower _ A).
  destruct (accepted_chars e A) as [N _].
  destruct e; [elim N; reflexivity | reflexivity].
Qed.

(** X14. The per-field email check is more lenient than the overall
    validity check.  Whenever [isFormValid]'s pattern accepts an email,
    [validateForm('email')] accepts it too, and still does when the
    email is padded with white space on either side; but the email
    conjunct of [isFormValid] accepts the padded email only when there
    is no padding at all.  So a padded email is not in the invalid-field
    list while [isFormValid] is false. *)
Theorem validateMail_more_lenient e ws1 ws2 w :
  Regex.test emailRegex e = true ->
  allChars Js.isWhiteSpace ws1 = true ->
  allChars Js.isWhiteSpace ws2 = true ->
  let w0 := with_self (set_email (ws1 ++ e ++ ws2)) w in
  exists w',
    validateForm "email" w0 = Some (Normal tt, w')
    /\ ~ In "email" (invalidFields (self w'))
    /\ (Regex.test emailRegex (email (self w0)) = true
        <-> ws1 = "" /\ ws2 = "").
Proof.
  intros A W1 W2 w0. exists (validated "email" w0).
  split; [apply validateForm_eq |]. split.
  - assert (EI : emailInvalid (self w0) = false)
      by (apply emailInvalid_padded; assumption).
    rewrite validated_email.
    change (invalidFields
              (self (afterAuto
                       (afterCheck (emailInvalid (self w0)) "email" w0))))
      with (checkedFields (emailInvalid (self w0)) "email"
              (invalidFields (self w0))).
    rewrite EI, In_checkedFields.
    intros [[_ H] | [H _]]; [discriminate H | apply H; reflexivity].
  - simpl. split.
    + intros T. apply accepted_chars in T. destruct T as [_ T].
      rewrite !allChars_append in T.
      apply andb_true_iff in T. destruct T as [T1 T].
      apply andb_true_iff in T. destruct T as [_ T2].
      split; apply spaces_not_emailChars; assumption.
    + intros [-> ->]. simpl. rewrite append_nil_r. exact A.
Qed.

(** An instance of X14: a copied address with a blank before and two
    after. *)
Lemma validateMail_more_lenient_witness :
  let w0 := with_self (set_email (" " ++ "ada@example.org" ++ "  "))
              filledWorld in
  exists w',
    validateForm "email" w0 = Some (Normal tt, w')
    /\ ~ In "email" (invalidFields (self w'))
    /\ (Regex.test emailRegex (email (self w0)) = true
        <-> " " = "" /\ "  " = "").
Proof.
  apply (validateMail_more_lenient "ada@example.org" " " "  " filledWorld);
    reflexivity.
Defined.


(* ------------------------------------------------------------------ *)
(** ** A validation pass over the whole form *)

Lemma run_fullPass svc w :
  run svc fullPass w
  = Some (validated "confirmPassword"
            (validated "password"
               (validated "email" (validated "name" w)))).
Proof.
  unfold fullPass, run, perform. rewrite !validateForm_eq. reflexivity.
Qed.

Lemma self_fullPass w :
  self (validated "confirmPassword"
          (validated "password" (validated "email" (validated "name" w))))
  = settled
      (fieldsAfter "confirmPassword" (self w)
         (fieldsAfter "password" (self w)
            (fieldsAfter "email" (self w)
               (fieldsAfter "name" (self w) (invalidFields (self w))))))
      (self w).
Proof.
  rewrite validated_settled.
  rewrite (validated_settled "password").
  rewrite (validated_settled "email").
  rewrite (validated_settled "name").
  reflexivity.
Qed.

Lemma fieldsAfter_name c inv :
  fieldsAfter "name" c inv = checkedFields (nameInvalid c) "name" inv.
Proof. reflexivity. Qed.

Lemma fieldsAfter_email c inv :
  fieldsAfter "email" c inv = checkedFields (emailInvalid c) "email" inv.
Proof. reflexivity. Qed.

Lemma fieldsAfter_password c inv :
  fieldsAfter "password" c inv
  = if Js.truthy (ud_confirmPassword (newUserData c))
    then checkedFields (confirmInvalid c) "confirmPassword"
           (checkedFields (passwordInvalid c) "password" inv)
    else checkedFields (passwordInvalid c) "password" inv.
Proof. reflexivity. Qed.

Lemma fieldsAfter_confirmPassword c inv :
  fieldsAfter "confirmPassword" c inv
  = checkedFields (confirmInvalid c) "confirmPassword" inv.
Proof. reflexivity. Qed.

Lemma In_fullPass c inv g :
  In g (fieldsAfter "confirmPassword" c
          (fieldsAfter "password" c
             (fieldsAfter "email" c (fieldsAfter "name" c inv))))
  <-> (g = "name" /\ nameInvalid c = true)
      \/ (g = "email" /\ emailInvalid c = true)
      \/ (g = "password" /\ passwordInvalid c = true)
      \/ (g = "confirmPassword" /\ confirmInvalid c = true)
      \/ (~ In g knownFields /\ In g inv).
Proof.
  rewrite fieldsAfter_confirmPassword, fieldsAfter_password,
    fieldsAfter_email, fieldsAfter_name.
  assert (K : In g knownFields
              <-> g = "name" \/ g = "email" \/ g = "password"
                  \/ g = "confirmPassword")
    by (simpl; intuition congruence).
  rewrite K. clear K.
  generalize (nameInvalid c) (emailInvalid c) (passwordInvalid c)
    (confirmInvalid c). intros b1 b2 b3 b4.
  destruct (Js.truthy _); rewrite !In_checkedFields;
    destruct (string_dec g "name") as [-> | N1];
    [ intuition congruence | | intuition congruence | ];
    (destruct (string_dec g "email") as [-> | N2];
     [ intuition congruence |]);
    (destruct (string_dec g "password") as [-> | N3];
     [ intuition congruence |]);
    (destruct (string_dec g "confirmPassword") as [-> | N4];
     [ intuition congruence | intuition congruence ]).
Qed.

Lemma no_member_nil {A} (l : list A) : (forall x, ~ In x l) -> l = [].
Proof.
  destruct l as [| a l]; [reflexivity |].
  intros H. elim (H a). left. reflexivity.
Qed.

Lemma isFormValid_conditions c :
  isFormValid c = true ->
  password c = passwordConfirm c ->
  nameInvalid c = false /\ emailInvalid c = false
  /\ passwordInvalid c = false /\ confirmInvalid c = false.
Proof.
  unfold isFormValid. rewrite !andb_true_iff, !Nat.leb_le.
  intros [[[Hn He] Hp] Hc] E.
  split; [| split; [| split]].
  - unfold nameInvalid. apply orb_false_iff. split.
    + destruct (name c); [simpl in Hn; lia | reflexivity].
    + apply Nat.ltb_ge. exact Hn.
  - pose proof (emailInvalid_padded "" (email c) "" c He eq_refl eq_refl)
      as X.
    simpl in X. rewrite append_nil_r in X.
    unfold emailInvalid in *. simpl in X. exact X.
  - unfold passwordInvalid. apply orb_false_iff. split.
    + destruct (password c); [simpl in Hp; lia | reflexivity].
    + apply Nat.ltb_ge. exact Hp.
  - unfold confirmInvalid. rewrite E, String.eqb_refl. reflexivity.
Qed.

(** X15. From a fresh instance, after any sequence of events, validate
    the four fields one after the other.  The invalid-field list is then
    empty exactly when none of the four per-field checks fails.  In
    particular, if [isFormValid] holds and the passwords are equal, the
    list is empty and the privacy error shows exactly when the checkbox
    is unchecked. *)
Theorem fullPass_settles_the_form svc ops e w :
  run svc ops (initialWorld e) = Some w ->
  exists w',
    run svc fullPass w = Some w'
    /\ (invalidFields (self w') = []
        <-> nameInvalid (self w) = false
            /\ emailInvalid (self w) = false
            /\ passwordInvalid (self w) = false
            /\ confirmInvalid (self w) = false)
    /\ (isFormValid (self w) = true ->
        password (self w) = passwordConfirm (self w) ->
        invalidFields (self w') = []
        /\ showPrivacyError (self w') = negb (privacyAccepted (self w))).
Proof.
  intros R.
  assert (K : Known w).
  { apply (Reachable_Known svc).
    eapply run_Reachable; [apply reach_init | exact R]. }
  destruct K as [K _].
  eexists. split; [apply run_fullPass |].
  rewrite self_fullPass. rewrite invalidFields_settled.
  set (c := self w).
  set (l := fieldsAfter "confirmPassword" c _).
  assert (M : l = []
              <-> nameInvalid c = false /\ emailInvalid c = false
                  /\ passwordInvalid c = false /\ confirmInvalid c = false).
  { split.
    - intros E.
      assert (X : forall g, ~ In g l) by (rewrite E; intros g []).
      repeat split; apply not_true_is_false; intros T.
      + apply (X "name"). apply In_fullPass. auto.
      + apply (X "email"). apply In_fullPass. auto.
      + apply (X "password"). apply In_fullPass. auto 6.
      + apply (X "confirmPassword"). apply In_fullPass. auto 6.
    - intros [C1 [C2 [C3 C4]]]. apply no_member_nil. intros g G.
      apply In_fullPass in G.
      destruct G as [[_ G] | [[_ G] | [[_ G] | [[_ G] | [G I]]]]];
        try congruence.
      apply G. apply K. exact I. }
  split; [exact M |].
  intros V E.
  assert (L : l = []) by (apply M, isFormValid_conditions; assumption).
  split; [exact L |].
  rewrite L. unfold settled. simpl. unfold privacyFlag. simpl.
  fold c. change (isFormValid _) with (isFormValid c). rewrite V.
  reflexivity.
Qed.

(** An instance of X15: the four inputs of the filled-in form, typed
    into a fresh instance. *)
Lemma fullPass_settles_the_form_witness :
  exists w',
    run quietServices fullPass filledWorld = Some w'
    /\ (invalidFields (self w') = []
        <-> nameInvalid (self filledWorld) = false
            /\ emailInvalid (self filledWorld) = false
            /\ passwordInvalid (self filledWorld) = false
            /\ confirmInvalid (self filledWorld) = false)
    /\ (isFormValid (self filledWorld) = true ->
        password (self filledWorld) = passwordConfirm (self filledWorld) ->
        invalidFields (self w') = []
        /\ showPrivacyError (self w')
           = negb (privacyAccepted (self filledWorld))).
Proof.
  apply (fullPass_settles_the_form quietServices
           [InputName "Ada Lovelace"; InputEmail "ada@example.org";
            InputPassword "secret1"; InputPasswordConfirm "secret1"]
           noContacts filledWorld).
  reflexivity.
Defined.
